(** * action-semver: the version-bump decision engine

    A shallow embedding of [logic.ts], [types.ts], [github/GitHubClient.ts],
    [main.ts], [utils.ts] and [index.ts] of cdqag/action-semver, and the
    properties of the bump classifier, the commit-range client, the
    orchestration in [main] and the entry script.

    JavaScript strings are Rocq byte strings; template literals are
    concatenations.  The effects of the program ([core.debug], [core.info],
    [core.warning], [core.setFailed], [core.setOutput], and the calls into
    the conventional-commits parser) are recorded, in program order, in an
    event trace carried by a small writer/exception monad. *)

From Stdlib Require Import String Ascii List Bool Arith ZArith Lia.
From Stdlib Require Import DecimalString.
From Stdlib Require Import Permutation.
Import ListNotations.

Local Open Scope list_scope.
Local Open Scope string_scope.

(* ===================================================================== *)
(** ** JavaScript primitives used by the sources *)
(* ===================================================================== *)

Module JS.

(** [String.prototype.toLowerCase] on one byte.  Bytes outside [A-Z] are
    left as they are.  The program only compares lower-cased strings with
    the words [feat], [feature], [error], [warn] and [ignore]; the one
    non-ASCII character whose lower case is a single ASCII letter is the
    Kelvin sign (to [k]), and [k] is in none of them. *)
Definition lower_ascii (c : ascii) : ascii :=
  let n := nat_of_ascii c in
  if (65 <=? n)%nat && (n <=? 90)%nat then ascii_of_nat (n + 32) else c.

Fixpoint toLowerCase (s : string) : string :=
  match s with
  | EmptyString => EmptyString
  | String c r => String (lower_ascii c) (toLowerCase r)
  end.

(** [a === b] on strings. *)
Definition strict_eq (a b : string) : bool := String.eqb a b.

(** [Array.prototype.includes] on an array of strings. *)
Definition includes (l : list string) (x : string) : bool :=
  existsb (strict_eq x) l.

(** Truthiness of a [string | null] value: [null] and [''] are falsy. *)
Definition truthy (v : option string) : bool :=
  match v with
  | Some s => negb (String.eqb s "")
  | None => false
  end.

(** [v ?? d]. *)
Definition nullish (v : option string) (d : string) : string :=
  match v with
  | Some s => s
  | None => d
  end.

(** Decimal rendering of an integral number ([${n}], [n.toString()]). *)
Definition Number_toString (z : Z) : string :=
  NilZero.string_of_int (Z.to_int z).

(** [s.split(sep)] for a one-character separator. *)
Fixpoint split (sep : ascii) (s : string) : list string :=
  match s with
  | EmptyString => [EmptyString]
  | String c r =>
      if Ascii.eqb c sep then EmptyString :: split sep r
      else match split sep r with
           | [] => [String c EmptyString]
           | w :: ws => String c w :: ws
           end
  end.

End JS.

(* ===================================================================== *)
(** ** Effects: the event trace and the monad of actions *)
(* ===================================================================== *)

(** A thrown JavaScript error: the HTTP [status] carried by request errors
    (absent for other errors) and its [message]. *)
Record Error : Type := mkError {
  status : option Z;
  message_of : string
}.

Inductive Event : Type :=
| Debug (msg : string)             (* core.debug(msg) *)
| Info (msg : string)              (* core.info(msg) *)
| Warning (msg : string)           (* core.warning(msg) *)
| SetFailed (msg : string)         (* core.setFailed(msg) *)
| SetOutput (name value : string)  (* core.setOutput(name, value) *)
| ParserCall (msg : string).       (* cc.parser(msg) was invoked *)

(** How a block of statements ends. *)
Inductive Outcome (A : Type) : Type :=
| Done (a : A)       (* falls through with value [a] *)
| Return_            (* executed [return;] : the function yields undefined *)
| Threw (e : Error)  (* an exception propagates *)
| OutOfFuel.         (* the step bound of a [while (true)] loop was reached *)

Arguments Done {A} a.
Arguments Return_ {A}.
Arguments Threw {A} e.
Arguments OutOfFuel {A}.

(** An action: the events it emitted, in order, and how it ended. *)
Definition Action (A : Type) : Type := (list Event * Outcome A)%type.

Definition ret {A} (a : A) : Action A := ([], Done a).

Definition bind {A B} (m : Action A) (k : A -> Action B) : Action B :=
  match m with
  | (ev, Done a) => let (ev', o) := k a in ((ev ++ ev')%list, o)
  | (ev, Return_) => (ev, Return_)
  | (ev, Threw e) => (ev, Threw e)
  | (ev, OutOfFuel) => (ev, OutOfFuel)
  end.

Declare Scope action_scope.
Delimit Scope action_scope with action.
Notation "x <- m ;; k" := (bind m (fun x => k))
  (at level 61, m at next level, right associativity) : action_scope.
Notation "m ;; k" := (bind m (fun _ => k))
  (at level 61, right associativity) : action_scope.
Local Open Scope action_scope.

Definition emit (e : Event) : Action unit := ([e], Done tt).
Definition return_ {A} : Action A := ([], Return_).
Definition throw {A} (e : Error) : Action A := ([], Threw e).
Definition out_of_fuel {A} : Action A := ([], OutOfFuel).

(** [try { body } catch (error) { handler error }]. *)
Definition try_catch {A} (body : Action A) (handler : Error -> Action A)
  : Action A :=
  match body with
  | (ev, Threw e) => let (ev', o) := handler e in ((ev ++ ev')%list, o)
  | other => other
  end.

(** Calling a function whose body is [body]: [return;] ends the call. *)
Definition call (body : Action unit) : Action unit :=
  match body with
  | (ev, Return_) => (ev, Done tt)
  | other => other
  end.

Definition events {A} (m : Action A) : list Event := fst m.
Definition outcome {A} (m : Action A) : Outcome A := snd m.

(** The result of a call into a collaborator: a value or a thrown error. *)
Inductive Try (A : Type) : Type :=
| Ok (a : A)
| Fail (e : Error).

Arguments Ok {A} a.
Arguments Fail {A} e.

Definition lift {A} (t : Try A) : Action A :=
  match t with
  | Ok a => ret a
  | Fail e => throw e
  end.

(** [@actions/core]. *)
Module core.
Definition debug (msg : string) : Action unit := emit (Debug msg).
Definition info (msg : string) : Action unit := emit (Info msg).
Definition warning (msg : string) : Action unit := emit (Warning msg).
Definition setFailed (msg : string) : Action unit := emit (SetFailed msg).
Definition setOutput (name value : string) : Action unit :=
  emit (SetOutput name value).
End core.

(* ===================================================================== *)
(** ** types.ts *)
(* ===================================================================== *)

Inductive NotConventionalCommitsReaction : Type :=
| ERROR
| WARN
| IGNORE.

(** The string value of each member of the enum. *)
Definition NotConventionalCommitsReaction_value
    (r : NotConventionalCommitsReaction) : string :=
  match r with
  | ERROR => "error"
  | WARN => "warn"
  | IGNORE => "ignore"
  end.

Definition getNotConventionalCommitsReactionEnumFromString (value : string)
  : Action NotConventionalCommitsReaction :=
  let v := JS.toLowerCase value in
  if JS.strict_eq v "error" then ret ERROR
  else if JS.strict_eq v "warn" then ret WARN
  else if JS.strict_eq v "ignore" then ret IGNORE
  else throw (mkError None
                ("Invalid NotConventionalCommitsReaction value: " ++ value)).

(* ===================================================================== *)
(** ** github/types.ts and the conventional-commits parser *)
(* ===================================================================== *)

Record Commit : Type := mkCommit {
  sha : string;
  message : string
}.

(** A footer note of a parsed commit. *)
Record Note : Type := mkNote {
  title : string;
  text : string
}.

(** The part of [cc.toConventionalChangelogFormat(cc.parser(msg))] that the
    classifier reads ([type] and [notes]), with the free-text [body]. *)
Record ConventionalCommit : Type := mkConventionalCommit {
  type : string;
  body : option string;
  notes : list Note
}.

(** [semver.ReleaseType], restricted to the values the classifier returns. *)
Inductive ReleaseType : Type :=
| major
| minor
| patch.

Definition ReleaseType_toString (t : ReleaseType) : string :=
  match t with
  | major => "major"
  | minor => "minor"
  | patch => "patch"
  end.

(* ===================================================================== *)
(** ** logic.ts *)
(* ===================================================================== *)

(** [/(^Merge )/.test(s)]: without the [m] flag, [^] is the start of [s]. *)
Definition IGNORE_MESSAGE_PATTERN_test (s : string) : bool :=
  String.prefix "Merge " s.

Definition BREAKING_CHANGE : string := "BREAKING CHANGE".
Definition MINOR_LIST : list string := ["feat"; "feature"].

Definition noteHasBreakingChange (note : Note) : bool :=
  JS.strict_eq (title note) BREAKING_CHANGE.

Section Classifier.

(** The parser collaborator: [cc_parser msg] is the changelog form of the
    parsed message, or [None] when the parser throws. *)
Variable cc_parser : string -> option ConventionalCommit.

(** [cc.toConventionalChangelogFormat(cc.parser(msg))], with the call
    recorded in the trace. *)
Definition parse (msg : string) : Action (option ConventionalCommit) :=
  emit (ParserCall msg) ;; ret (cc_parser msg).

Definition not_conventional (msg : string) : string :=
  "Commit message not in conventional-commits format: '" ++ msg ++ "'".

(** The [for (const commit of commits)] loop and the final [return], from
    the current values of [bumpMajor] and [bumpMinor].  The value [None]
    is the [undefined] of the bare [return;]. *)
Fixpoint for_commits (reaction : NotConventionalCommitsReaction)
    (commits : list Commit) (bumpMajor bumpMinor : bool)
  : Action (option ReleaseType) :=
  match commits with
  | [] =>
      ret (Some (if bumpMajor then major
                 else if bumpMinor then minor else patch))
  | commit :: rest =>
      if IGNORE_MESSAGE_PATTERN_test (message commit) then
        core.debug ("Ignoring commit message: '" ++ message commit ++ "'") ;;
        for_commits reaction rest bumpMajor bumpMinor
      else
        parsed <- parse (message commit) ;;
        match parsed with
        | Some commitMessage =>
            let commitMessageType := JS.toLowerCase (type commitMessage) in
            if existsb noteHasBreakingChange (notes commitMessage) then
              for_commits reaction rest true bumpMinor
            else if JS.includes MINOR_LIST commitMessageType then
              for_commits reaction rest bumpMajor true
            else
              for_commits reaction rest bumpMajor bumpMinor
        | None =>
            match reaction with
            | ERROR =>
                core.setFailed (not_conventional (message commit)) ;;
                ret None
            | WARN =>
                core.warning (not_conventional (message commit)) ;;
                for_commits reaction rest bumpMajor bumpMinor
            | IGNORE =>
                for_commits reaction rest bumpMajor bumpMinor
            end
        end
  end.

Definition getBumpTypeFromCommits (commits : list Commit)
    (notConventionalCommitsReaction : NotConventionalCommitsReaction)
  : Action (option ReleaseType) :=
  for_commits notConventionalCommitsReaction commits false false.

End Classifier.

(** Modelled from the spec: [suffixWithPreRelease] of logic.ts is not among
    the sources; its test (logic.spec.ts) and its call in [main] are.  The
    spec (4.2) has it append, joined by [glue], the short form of the hash of
    the revision that triggered the run; the test fixes the short form as
    the first seven characters of [context.sha] (['abcdef1234567890'] gives
    ['abcdef1']). *)
Definition short_hash (context_sha : string) : string :=
  substring 0 7 context_sha.

Definition suffixWithPreRelease (context_sha : string)
    (version glue : string) : string :=
  version ++ glue ++ short_hash context_sha.

(* ===================================================================== *)
(** ** github/GitHubClient.ts *)
(* ===================================================================== *)

(** One element of [response.data.commits]: [commit.sha] and
    [commit.commit.message]. *)
Record CompareCommit : Type := mkCompareCommit {
  commit_sha : string;
  commit_message : string
}.

(** [response.data] of [compareCommitsWithBasehead]. *)
Record CompareData : Type := mkCompareData {
  commits : list CompareCommit;
  total_commits : Z
}.

(** The REST client returned by [getOctokit(token)]: the three endpoints the
    action calls, each answering with its payload or a thrown error.  The
    [owner] and [repo] arguments are [None] when [undefined]. *)
Record Octokit : Type := mkOctokit {
  repos_getLatestRelease :
    option string -> option string -> Try string;          (* data.tag_name *)
  repos_compareCommitsWithBasehead :
    option string -> option string -> string -> Z -> Z -> Try CompareData;
  repos_get :
    option string -> option string -> Try string     (* data.default_branch *)
}.

Record GitHubClient : Type := mkGitHubClient {
  octokit : Octokit;
  repoOwner : option string;
  repoName : option string
}.

(** [const [owner, repo] = repoArgs.length === 1
       ? repoArgs[0].split('/') : repoArgs]. *)
Definition new_GitHubClient (getOctokit : string -> Octokit)
    (token : string) (repoArgs : list string) : GitHubClient :=
  let parts :=
    match repoArgs with
    | [fullRepoName] => JS.split "/" fullRepoName
    | _ => repoArgs
    end in
  mkGitHubClient (getOctokit token) (nth_error parts 0) (nth_error parts 1).

(** [error.status === 404]. *)
Definition status_is_404 (error : Error) : bool :=
  match status error with
  | Some s => (s =? 404)%Z
  | None => false
  end.

Definition getLatestReleaseTag (this : GitHubClient)
  : Action (option string) :=
  try_catch
    (tag_name <- lift (repos_getLatestRelease (octokit this)
                         (repoOwner this) (repoName this)) ;;
     ret (Some tag_name))
    (fun error =>
       if status_is_404 error then ret None   (* No releases found *)
       else throw error).                     (* Rethrow other errors *)

(** [for (const commit of response.data.commits)]: log and push each one. *)
Fixpoint push_commits (cs : list CompareCommit) (listOfCommits : list Commit)
  : Action (list Commit) :=
  match cs with
  | [] => ret listOfCommits
  | commit :: rest =>
      core.debug ("Found commit: " ++ commit_sha commit
                  ++ " with message: " ++ commit_message commit) ;;
      push_commits rest
        (listOfCommits
           ++ [mkCommit (commit_sha commit) (commit_message commit)])%list
  end.

Definition length_Z {A} (l : list A) : Z := Z.of_nat (length l).

(** The [while (true)] loop of [getListOfCommitsBetween] from the current
    [listOfCommits], [total_commits] and [page], followed by the statements
    after the loop.  The loop has no bound of its own, so the model takes a
    bound [fuel] on the number of iterations.  The [try] block yields [None]
    when the handler breaks out of the loop. *)
Fixpoint fetch_pages (fuel : nat) (this : GitHubClient)
    (rangeBegin rangeEnd : string) (per_page : Z)
    (listOfCommits : list Commit) (total : Z) (page : Z)
  : Action (list Commit) :=
  let finish (listOfCommits : list Commit) : Action (list Commit) :=
    core.debug ("Total commits fetched: "
                ++ JS.Number_toString (length_Z listOfCommits)) ;;
    ret listOfCommits in
  match fuel with
  | O => out_of_fuel
  | S fuel' =>
      step <-
        try_catch
          (core.debug ("Fetching commits page " ++ JS.Number_toString page) ;;
           data <- lift (repos_compareCommitsWithBasehead (octokit this)
                           (repoOwner this) (repoName this)
                           (rangeBegin ++ "..." ++ rangeEnd) page per_page) ;;
           core.debug ("Fetched "
                       ++ JS.Number_toString (length_Z (commits data))
                       ++ " commits") ;;
           let total := total_commits data in
           core.debug ("Total commits to fetch: "
                       ++ JS.Number_toString total) ;;
           listOfCommits <- push_commits (commits data) listOfCommits ;;
           ret (Some (listOfCommits, total)))
          (fun error =>
             core.debug ("Error fetching commits: " ++ message_of error) ;;
             if status_is_404 error then ret None  (* No more commits found *)
             else throw error) ;;                  (* Rethrow other errors *)
      match step with
      | None => finish listOfCommits
      | Some (listOfCommits, total) =>
          if (length_Z listOfCommits >=? total)%Z then finish listOfCommits
          else fetch_pages fuel' this rangeBegin rangeEnd per_page
                 listOfCommits total (page + 1)%Z
      end
  end.

Definition getListOfCommitsBetween (fuel : nat) (this : GitHubClient)
    (rangeBegin rangeEnd : string) : Action (list Commit) :=
  core.debug ("Getting list of commits between " ++ rangeBegin
              ++ " and " ++ rangeEnd) ;;
  fetch_pages fuel this rangeBegin rangeEnd 100 [] (-1) 0.

Definition getDefaultBranchName (this : GitHubClient) : Action string :=
  lift (repos_get (octokit this) (repoOwner this) (repoName this)).

(* ===================================================================== *)
(** ** The semver library *)
(* ===================================================================== *)

Module semver.

(** The three functions of the [semver] package that [main] calls:
    [valid] and [inc] answer [null] ([None]) on failure, [major] throws. *)
Class Lib : Type := {
  valid : string -> option string;
  inc : string -> ReleaseType -> option string;
  major : string -> Try Z
}.

End semver.

(* ===================================================================== *)
(** ** main.ts *)
(* ===================================================================== *)

Section Main.

(** What a run reads from its surroundings: the REST client factory, the
    semver package, the commit parser, the hash of the triggering revision
    ([context.sha]) and the bound on pagination steps. *)
Context (getOctokit : string -> Octokit).
Context {semver_lib : semver.Lib}.
Context (cc_parser : string -> option ConventionalCommit).
Context (context_sha : string).
Context (fuel : nat).

(** The body of [main].  The [if (latestReleaseTag) ... else ...] statement
    assigns [currentVersion] and [newVersion]; it is the action [versions]
    that yields the two values, or ends the function with [return;]. *)
Definition main_body
    (fullRepoName githubToken targetBranch notConventionalCommitsReaction
     initReleaseVersion preReleaseVersionGlue : string) : Action unit :=
  notConventionalCommitsReactionEnum <-
    getNotConventionalCommitsReactionEnumFromString
      notConventionalCommitsReaction ;;
  let githubClient := new_GitHubClient getOctokit githubToken [fullRepoName] in

  (* Get the latest release tag *)
  latestReleaseTag <- getLatestReleaseTag githubClient ;;
  core.info ("Latest release tag: " ++ JS.nullish latestReleaseTag "") ;;
  core.setOutput "latest-release-tag" (JS.nullish latestReleaseTag "") ;;

  versions <-
    (if JS.truthy latestReleaseTag then
       let tag := JS.nullish latestReleaseTag "" in
       (* Validate the latest release tag *)
       let currentVersion := semver.valid tag in
       if negb (JS.truthy currentVersion) then
         core.setFailed ("Latest release tag (" ++ tag
           ++ ") is not a valid semver version. Please ensure your latest release tag follows semver format.") ;;
         return_
       else
         let currentVersion := JS.nullish currentVersion "" in
         bumpType <-
           (if JS.truthy latestReleaseTag then
              commits <-
                try_catch
                  (core.debug ("Getting list of commits between " ++ tag
                               ++ " and " ++ targetBranch ++ ".") ;;
                   getListOfCommitsBetween fuel githubClient tag targetBranch)
                  (fun error =>
                     core.setFailed
                       ("Failed to get the list of commits between " ++ tag
                        ++ " and " ++ targetBranch
                        ++ ". Please ensure the target branch exists.") ;;
                     return_) ;;
              if (length_Z commits =? 0)%Z then
                core.info "No new commits found since the latest release." ;;
                ret None
              else
                core.info ("Found " ++ JS.Number_toString (length_Z commits)
                           ++ " commits since the latest release.") ;;
                getBumpTypeFromCommits cc_parser commits
                  notConventionalCommitsReactionEnum
            else ret None) ;;
         bumpType <-
           match bumpType with
           | None =>
               core.info "No conventional commits found. Bumping patch version." ;;
               ret patch
           | Some bumpType => ret bumpType
           end ;;
         core.info ("Bump type: " ++ ReleaseType_toString bumpType) ;;
         (* Calculate the new version *)
         let newVersion := semver.inc currentVersion bumpType in
         if negb (JS.truthy newVersion) then
           core.setFailed "Failed to increment version. Please check the current version and bump type." ;;
           return_
         else ret (currentVersion, JS.nullish newVersion "")
     else
       (* If no latest release tag, validate the provided initial version *)
       let newVersion := semver.valid initReleaseVersion in
       if negb (JS.truthy newVersion) then
         core.setFailed
           ("No valid latest release tag found and the provided initial version ("
            ++ initReleaseVersion ++ ") is not a valid semver version.") ;;
         return_
       else ret ("", JS.nullish newVersion "")) ;;
  let (currentVersion, newVersion) := versions : string * string in

  core.info ("Current version: " ++ currentVersion) ;;
  core.setOutput "current-version" currentVersion ;;

  (* Get major version before any pre-release suffix is added *)
  newMajorVersion <- lift (semver.major newVersion) ;;

  (* Get the default branch name *)
  defaultBranch <- getDefaultBranchName githubClient ;;
  let defaultBranchRef := "refs/heads/" ++ defaultBranch in
  newVersion <-
    (if negb (JS.strict_eq targetBranch defaultBranchRef) then
       (* Pre-release *)
       core.info ("Target branch (" ++ targetBranch
                  ++ ") is not the default branch (" ++ defaultBranchRef
                  ++ "). Suffixing version with pre-release identifier.") ;;
       ret (suffixWithPreRelease context_sha newVersion preReleaseVersionGlue)
     else ret newVersion) ;;

  core.info ("New version: " ++ newVersion) ;;
  core.setOutput "new-version" newVersion ;;

  core.info ("New major version: " ++ JS.Number_toString newMajorVersion) ;;
  core.setOutput "new-major-version" (JS.Number_toString newMajorVersion).

Definition main
    (fullRepoName githubToken targetBranch notConventionalCommitsReaction
     initReleaseVersion preReleaseVersionGlue : string) : Action unit :=
  call (main_body fullRepoName githubToken targetBranch
          notConventionalCommitsReaction initReleaseVersion
          preReleaseVersionGlue).

End Main.

(* ===================================================================== *)
(** ** utils.ts and index.ts *)
(* ===================================================================== *)

Section Index.

(** [core.getInput(name)] and [String.prototype.trim], as the run finds
    them. *)
Context (getInput : string -> string).
Context (trim : string -> string).

Definition requireNonEmptyStringInput (name : string) : Action string :=
  let value := trim (getInput name) in
  if JS.strict_eq value "" then
    throw (mkError None ("Input '" ++ name ++ "' cannot be an empty string"))
  else ret value.

Context (getOctokit : string -> Octokit).
Context {semver_lib : semver.Lib}.
Context (cc_parser : string -> option ConventionalCommit).
Context (context_sha : string).
Context (fuel : nat).

(** The script of index.ts: the six inputs are read in this order, then
    [main] is started with them. *)
Definition index : Action unit :=
  repository <- requireNonEmptyStringInput "repository" ;;
  githubToken <- requireNonEmptyStringInput "github-token" ;;
  targetBranch <- requireNonEmptyStringInput "target-branch" ;;
  notConventionalCommitsReaction <-
    requireNonEmptyStringInput "not-conventional-commits-reaction" ;;
  initReleaseVersion <- requireNonEmptyStringInput "init-release-version" ;;
  preReleaseVersionGlue <-
    requireNonEmptyStringInput "pre-release-version-glue" ;;
  main getOctokit cc_parser context_sha fuel
    repository githubToken targetBranch notConventionalCommitsReaction
    initReleaseVersion preReleaseVersionGlue.

End Index.

(* ===================================================================== *)
(** ** Vocabulary of the statements *)
(* ===================================================================== *)

(** A commit the classifier skips: its message matches the ignore pattern. *)
Definition ignored (c : Commit) : bool :=
  IGNORE_MESSAGE_PATTERN_test (message c).

(** What the loop logs for a commit it does not reject. *)
Definition visit (c : Commit) : Event :=
  if ignored c then Debug ("Ignoring commit message: '" ++ message c ++ "'")
  else ParserCall (message c).

Definition not_ignored (c : Commit) : bool := negb (ignored c).

Section CommitKinds.

Variable cc_parser : string -> option ConventionalCommit.

(** A non-ignored commit whose message the parser rejects. *)
Definition malformed (c : Commit) : bool :=
  negb (ignored c) &&
  match cc_parser (message c) with
  | Some _ => false
  | None => true
  end.

(** A non-ignored, successfully parsed commit with a breaking-change note. *)
Definition breaking_commit (c : Commit) : bool :=
  negb (ignored c) &&
  match cc_parser (message c) with
  | Some cm => existsb noteHasBreakingChange (notes cm)
  | None => false
  end.

(** A non-ignored, successfully parsed commit whose lower-cased type is in
    [MINOR_LIST]. *)
Definition feature_commit (c : Commit) : bool :=
  negb (ignored c) &&
  match cc_parser (message c) with
  | Some cm => JS.includes MINOR_LIST (JS.toLowerCase (type cm))
  | None => false
  end.

(** The classification aborts: the policy is [ERROR] and some commit is
    malformed. *)
Definition aborts (reaction : NotConventionalCommitsReaction)
    (commits : list Commit) : bool :=
  match reaction with
  | ERROR => existsb malformed commits
  | _ => false
  end.

(** The bump the commits call for. *)
Definition bump_of (commits : list Commit) : ReleaseType :=
  if existsb breaking_commit commits then major
  else if existsb feature_commit commits then minor
  else patch.

(** The three ways the loop can treat a commit. *)
Inductive commit_case (c : Commit) : Prop :=
| case_ignored : ignored c = true -> commit_case c
| case_parsed cm :
    ignored c = false -> cc_parser (message c) = Some cm -> commit_case c
| case_malformed :
    ignored c = false -> cc_parser (message c) = None -> commit_case c.

End CommitKinds.

(** The classification in the words of the specification, written without
    the constants and helpers of logic.ts, to be compared with what
    [getBumpTypeFromCommits] computes. *)
Module Spec.

(** The message begins with the literal token ['Merge ']. *)
Definition begins_with_Merge (msg : string) : bool :=
  String.prefix "Merge " msg.

(** Some footer note of the parsed commit is titled exactly
    [BREAKING CHANGE]. *)
Definition has_breaking_change_note (cm : ConventionalCommit) : bool :=
  existsb (fun note => String.eqb (title note) "BREAKING CHANGE") (notes cm).

(** The capital of a lower-case letter. *)
Definition capital (w : ascii) : ascii :=
  ascii_of_nat (nat_of_ascii w - 32).

(** [ty] spells [word], each of its letters in lower or in upper case: the
    tokens whose lower case is [word]. *)
Fixpoint spells (word ty : string) : bool :=
  match word, ty with
  | EmptyString, EmptyString => true
  | String w word', String c ty' =>
      (Ascii.eqb c w || Ascii.eqb c (capital w)) && spells word' ty'
  | _, _ => false
  end.

(** The lower-cased type token is one of [feat] and [feature]. *)
Definition is_feature_type (ty : string) : bool :=
  spells "feat" ty || spells "feature" ty.

Section Kinds.

Variable cc_parser : string -> option ConventionalCommit.

(** A commit that is not ignored and does not parse. *)
Definition malformed (c : Commit) : bool :=
  negb (begins_with_Merge (message c)) &&
  match cc_parser (message c) with
  | Some _ => false
  | None => true
  end.

(** A commit that is not ignored, parses, and carries a breaking-change
    note. *)
Definition breaking (c : Commit) : bool :=
  negb (begins_with_Merge (message c)) &&
  match cc_parser (message c) with
  | Some cm => has_breaking_change_note cm
  | None => false
  end.

(** A commit that is not ignored, parses, and has a feature type. *)
Definition feature (c : Commit) : bool :=
  negb (begins_with_Merge (message c)) &&
  match cc_parser (message c) with
  | Some cm => is_feature_type (type cm)
  | None => false
  end.

(** The classification is aborted: the policy is ERROR and some commit is
    malformed. *)
Definition aborted (reaction : NotConventionalCommitsReaction)
    (commits : list Commit) : bool :=
  match reaction with
  | ERROR => existsb malformed commits
  | WARN => false
  | IGNORE => false
  end.

(** MAJOR if some commit is breaking, else MINOR if some commit is a
    feature, else PATCH. *)
Definition bump (commits : list Commit) : ReleaseType :=
  if existsb breaking commits then major
  else if existsb feature commits then minor
  else patch.

End Kinds.

End Spec.

(** The severity order PATCH < MINOR < MAJOR. *)
Definition severity (t : ReleaseType) : nat :=
  match t with
  | patch => 0
  | minor => 1
  | major => 2
  end.

(** The messages handed to the parser, in call order. *)
Fixpoint parser_calls (evs : list Event) : list string :=
  match evs with
  | [] => []
  | ParserCall m :: rest => m :: parser_calls rest
  | _ :: rest => parser_calls rest
  end.

Definition is_debug (e : Event) : bool :=
  match e with
  | Debug _ => true
  | _ => false
  end.

Definition is_output (e : Event) : bool :=
  match e with
  | SetOutput _ _ => true
  | _ => false
  end.

(** A trace all of whose events satisfy [P]. *)
Definition only (P : Event -> bool) (evs : list Event) : Prop :=
  Forall (fun e => P e = true) evs.

(** An action whose trace satisfies [P] whenever it falls through. *)
Definition done_only {A} (P : Event -> bool) (m : Action A) : Prop :=
  forall evs a, m = (evs, Done a) -> only P evs.

(** An action that falls through, or else has a trace satisfying [P]. *)
Definition unless_done {A} (P : Event -> bool) (m : Action A) : Prop :=
  (exists a, outcome m = Done a) \/ only P (events m).

(** Events other than setting an output. *)
Definition no_output (e : Event) : bool := negb (is_output e).

(** Events other than setting the output [new-version]. *)
Definition no_new_version (e : Event) : bool :=
  match e with
  | SetOutput name _ => negb (String.eqb name "new-version")
  | _ => true
  end.

(** Events other than a failure, except the classifier's. *)
Definition no_failure_but_abort (e : Event) : bool :=
  match e with
  | SetFailed msg =>
      String.prefix "Commit message not in conventional-commits format: '" msg
  | _ => true
  end.


(** The larger of two bump types in the severity order. *)
Definition ReleaseType_max (a b : ReleaseType) : ReleaseType :=
  if Nat.leb (severity a) (severity b) then b else a.

(** The messages of the warnings and of the failures of a trace, in order. *)
Fixpoint warnings (evs : list Event) : list string :=
  match evs with
  | [] => []
  | Warning m :: rest => m :: warnings rest
  | _ :: rest => warnings rest
  end.

Fixpoint failures (evs : list Event) : list string :=
  match evs with
  | [] => []
  | SetFailed m :: rest => m :: failures rest
  | _ :: rest => failures rest
  end.

(** The outputs a trace sets, each with its value, in order. *)
Fixpoint outputs (evs : list Event) : list (string * string) :=
  match evs with
  | [] => []
  | SetOutput name value :: rest => (name, value) :: outputs rest
  | _ :: rest => outputs rest
  end.

(** The version [main] publishes for [newVersion]: suffixed unless the
    target branch is the reference of the default branch. *)
Definition published (context_sha targetBranch defaultBranch
    newVersion preReleaseVersionGlue : string) : string :=
  if JS.strict_eq targetBranch ("refs/heads/" ++ defaultBranch)
  then newVersion
  else suffixWithPreRelease context_sha newVersion preReleaseVersionGlue.

(** The character [c] occurs in [s]. *)
Fixpoint has_char (c : ascii) (s : string) : bool :=
  match s with
  | EmptyString => false
  | String a r => Ascii.eqb a c || has_char c r
  end.

(** A commit of a comparison page as the client stores it. *)
Definition to_Commit (c : CompareCommit) : Commit :=
  mkCommit (commit_sha c) (commit_message c).

(** The commits of the first [n] pages of a paginated answer [d]. *)
Fixpoint first_pages (d : nat -> CompareData) (n : nat) : list Commit :=
  match n with
  | O => []
  | S k => (first_pages d k ++ map to_Commit (commits (d k)))%list
  end.

(** Each of the first [k] pages of the comparison is delivered as [d] has
    it and leaves the list short of the total it reports. *)
Definition short_pages (this : GitHubClient) (rangeBegin rangeEnd : string)
    (d : nat -> CompareData) (k : nat) : Prop :=
  forall i, i < k ->
    repos_compareCommitsWithBasehead (octokit this) (repoOwner this)
      (repoName this) (rangeBegin ++ "..." ++ rangeEnd) (Z.of_nat i) 100
      = Ok (d i)
    /\ (length_Z (first_pages d (S i)) < total_commits (d i))%Z.

(** The bump [main] applies to the commits since the release: PATCH when
    the classification was aborted, else what the commits call for. *)
Definition effective_bump (cc_parser : string -> option ConventionalCommit)
    (reaction : NotConventionalCommitsReaction) (commits : list Commit)
  : ReleaseType :=
  if aborts cc_parser reaction commits then patch
  else bump_of cc_parser commits.

(** The six inputs of the action, in the order index.ts reads them. *)
Definition index_inputs : list string :=
  ["repository"; "github-token"; "target-branch";
   "not-conventional-commits-reaction"; "init-release-version";
   "pre-release-version-glue"].

(* ===================================================================== *)
(** ** Stand-ins for the collaborators, for running the examples *)
(* ===================================================================== *)

Module Sample.

Fixpoint assoc {V} (tbl : list (string * V)) (k : string) : option V :=
  match tbl with
  | [] => None
  | (k', v) :: rest => if String.eqb k k' then Some v else assoc rest k
  end.

Definition LF : string := String (ascii_of_nat 10) EmptyString.

(** A parser that knows the messages of its table and rejects the others.
    The entries follow the expectations of logic.spec.ts. *)
Definition parser_table : list (string * ConventionalCommit) :=
  [ ("feat: add new user authentication",
     mkConventionalCommit "feat" None []);
    ("fix: update user model",
     mkConventionalCommit "fix" None []);
    ("fix(api): implement user profile endpoints",
     mkConventionalCommit "fix" None []);
    ("docs: update README with new examples",
     mkConventionalCommit "docs" None []);
    ("feat!: remove deprecated API endpoints",
     mkConventionalCommit "feat" None
       [mkNote "BREAKING CHANGE" "remove deprecated API endpoints"]);
    ("fix: describe the upgrade" ++ LF ++ LF
       ++ "Prose that mentions a BREAKING CHANGE is not a footer.",
     mkConventionalCommit "fix"
       (Some "Prose that mentions a BREAKING CHANGE is not a footer.") []) ].

Definition cc_parser (msg : string) : option ConventionalCommit :=
  assoc parser_table msg.

(** A semver package that knows the versions around [1.0.0]. *)
#[local] Instance semver_lib : semver.Lib := {
  valid v := assoc [("v1.0.0", "1.0.0"); ("1.0.0", "1.0.0")] v;
  inc v t :=
    if String.eqb v "1.0.0" then
      Some (match t with
            | major => "2.0.0"
            | minor => "1.1.0"
            | patch => "1.0.1"
            end)
    else None;
  major v :=
    match assoc [("1.0.0", 1%Z); ("1.0.1", 1%Z); ("1.1.0", 1%Z);
                 ("2.0.0", 2%Z)] v with
    | Some n => Ok n
    | None => Fail (mkError None ("Invalid Version: " ++ v))
    end
}.

Definition not_found : Error := mkError (Some 404%Z) "Not Found".

(** A repository [owner/repo] whose latest release is [v1.0.0] and whose
    default branch is [main]; [compare] answers the range comparison. *)
Definition repository (compare : string -> Z -> Try CompareData)
    (token : string) : Octokit :=
  mkOctokit
    (fun _ _ => Ok "v1.0.0")
    (fun _ _ basehead page _ => compare basehead page)
    (fun _ _ => Ok "main").

(** One commit since the release, not in conventional-commits format. *)
Definition one_malformed_commit (basehead : string) (page : Z)
  : Try CompareData :=
  Ok (mkCompareData [mkCompareCommit "abc123" "Add some new features"] 1).

(** No commit since the release. *)
Definition no_commits (basehead : string) (page : Z) : Try CompareData :=
  Ok (mkCompareData [] 0).

(** The target of the comparison does not exist. *)
Definition unknown_range (basehead : string) (page : Z) : Try CompareData :=
  Fail not_found.

(** Two commits since the release, delivered one per page. *)
Definition page_of (i : nat) : CompareData :=
  match i with
  | 0 => mkCompareData [mkCompareCommit "abc123" "feat: add new user authentication"] 2
  | _ => mkCompareData [mkCompareCommit "def456" "fix: update user model"] 2
  end.

Definition two_pages (basehead : string) (page : Z) : Try CompareData :=
  Ok (page_of (Z.to_nat page)).


(** Pages that stay empty while reporting one commit. *)
Definition empty_page (i : nat) : CompareData := mkCompareData [] 1.

Definition empty_pages (basehead : string) (page : Z) : Try CompareData :=
  Ok (empty_page (Z.to_nat page)).

(** The client of the sample repository. *)
Definition client (compare : string -> Z -> Try CompareData) : GitHubClient :=
  new_GitHubClient (repository compare) "token" ["owner/repo"].

(** A repository whose release lookup answers [latest]. *)
Definition server (latest : Try string)
    (compare : string -> Z -> Try CompareData) (token : string) : Octokit :=
  mkOctokit
    (fun _ _ => latest)
    (fun _ _ basehead page _ => compare basehead page)
    (fun _ _ => Ok "main").

Definition server_error : Error := mkError (Some 500%Z) "Server Error".

(** The comparison fails on the server. *)
Definition broken_range (basehead : string) (page : Z) : Try CompareData :=
  Fail server_error.

(** A semver package that validates as [semver_lib] does and increments
    nothing. *)
Definition frozen_semver : semver.Lib := {|
  semver.valid := semver.valid;
  semver.inc := fun _ _ => None;
  semver.major := semver.major
|}.

(** [trim] on text whose only white space is the space character. *)
Fixpoint ltrim (s : string) : string :=
  match s with
  | String c r => if Ascii.eqb c " " then ltrim r else s
  | EmptyString => EmptyString
  end.

Fixpoint rtrim (s : string) : string :=
  match s with
  | String c r =>
      match rtrim r with
      | EmptyString => if Ascii.eqb c " " then EmptyString
                       else String c EmptyString
      | r' => String c r'
      end
  | EmptyString => EmptyString
  end.

Definition trim (s : string) : string := rtrim (ltrim s).

(** The inputs of a workflow step: those of the table, the others empty. *)
Definition getInput_of (tbl : list (string * string)) (name : string)
  : string :=
  match assoc tbl name with
  | Some v => v
  | None => ""
  end.

Definition all_inputs : list (string * string) :=
  [("repository", "owner/repo"); ("github-token", " token ");
   ("target-branch", "refs/heads/main");
   ("not-conventional-commits-reaction", "warn");
   ("init-release-version", "1.0.0");
   ("pre-release-version-glue", "-")].

(** The same without a target branch. *)
Definition inputs_without_branch : list (string * string) :=
  [("repository", "owner/repo"); ("github-token", " token ");
   ("target-branch", "   ");
   ("not-conventional-commits-reaction", "warn");
   ("init-release-version", "1.0.0");
   ("pre-release-version-glue", "-")].

(** The hash of the revision that triggered the sample runs. *)
Definition context_sha : string := "abcdef1234567890".

(** A run of the action on [owner/repo] with the initial version [1.0.0]
    and the glue [-]. *)
Definition body (compare : string -> Z -> Try CompareData)
    (targetBranch notConventionalCommitsReaction : string) : Action unit :=
  main_body (repository compare) cc_parser context_sha 5
    "owner/repo" "token" targetBranch notConventionalCommitsReaction
    "1.0.0" "-".

Definition run (compare : string -> Z -> Try CompareData)
    (targetBranch notConventionalCommitsReaction : string) : Action unit :=
  main (repository compare) cc_parser context_sha 5
    "owner/repo" "token" targetBranch notConventionalCommitsReaction
    "1.0.0" "-".

(** A run against [getOctokit] with the initial version
    [initReleaseVersion]. *)
Definition run_on (getOctokit : string -> Octokit)
    (targetBranch notConventionalCommitsReaction initReleaseVersion : string)
  : Action unit :=
  main getOctokit cc_parser context_sha 5
    "owner/repo" "token" targetBranch notConventionalCommitsReaction
    initReleaseVersion "-".

(** The script of index.ts on a table of inputs. *)
Definition script (tbl : list (string * string)) : Action unit :=
  index (getInput_of tbl) trim (repository no_commits) cc_parser
    context_sha 5.

End Sample.

(* ===================================================================== *)
(** * Properties *)
(* ===================================================================== *)

(** ** The monad *)

Lemma bind_emit {B} (e : Event) (k : unit -> Action B) :
  bind (emit e) k = (e :: events (k tt), outcome (k tt)).
Proof. unfold bind, emit, events, outcome. destruct (k tt); reflexivity. Qed.

Lemma bind_ret {A B} (a : A) (k : A -> Action B) : bind (ret a) k = k a.
Proof. unfold bind, ret. destruct (k a); reflexivity. Qed.

Lemma action_eta {A} (m : Action A) : m = (events m, outcome m).
Proof. destruct m; reflexivity. Qed.

(** A sequence that falls through: both halves did, and the traces add up. *)
Lemma bind_Done {A B} (m : Action A) (k : A -> Action B) evs (b : B) :
  bind m k = (evs, Done b) ->
  exists ev1 a ev2,
    m = (ev1, Done a) /\ k a = (ev2, Done b) /\ evs = (ev1 ++ ev2)%list.
Proof.
  unfold bind. destruct m as [ev1 [a | | e | ]]; try discriminate.
  destruct (k a) as [ev2 o] eqn:Hk. intros H. inversion H; subst.
  exists ev1, a, ev2.
  split; [reflexivity | split; [assumption | reflexivity]].
Qed.

(** ** The ignore pattern *)

Lemma IGNORE_MESSAGE_PATTERN_test_Merge (tail : string) :
  IGNORE_MESSAGE_PATTERN_test ("Merge " ++ tail) = true.
Proof. unfold IGNORE_MESSAGE_PATTERN_test. destruct tail; reflexivity. Qed.

(** The pattern matches exactly the strings that begin with ['Merge ']. *)
Lemma IGNORE_MESSAGE_PATTERN_test_iff (s : string) :
  IGNORE_MESSAGE_PATTERN_test s = true <-> exists tail, s = "Merge " ++ tail.
Proof.
  split; [| intros [tail ->]; apply IGNORE_MESSAGE_PATTERN_test_Merge].
  unfold IGNORE_MESSAGE_PATTERN_test. intros H.
  apply prefix_correct in H. simpl in H.
  exists (substring 6 (String.length s - 6) s).
  do 6 (destruct s as [| ? s]; [discriminate |]).
  simpl in H. injection H as -> -> -> -> -> -> H. simpl.
  rewrite Nat.sub_0_r.
  do 6 f_equal. clear H. induction s as [| a s IH]; simpl; [reflexivity |].
  now rewrite <- IH.
Qed.

(** ** One iteration of the classifier's loop *)

Section ClassifierSteps.

Variable cc_parser : string -> option ConventionalCommit.
Variable reaction : NotConventionalCommitsReaction.

Lemma bind_parse {B} (msg : string)
    (k : option ConventionalCommit -> Action B) :
  bind (parse cc_parser msg) k =
    (ParserCall msg :: events (k (cc_parser msg)),
     outcome (k (cc_parser msg))).
Proof.
  unfold parse, bind, emit, ret, events, outcome. cbn.
  destruct (k (cc_parser msg)); reflexivity.
Qed.

Local Notation "'loop'" := (for_commits cc_parser reaction).

Lemma for_commits_nil bumpMajor bumpMinor :
  loop [] bumpMajor bumpMinor =
    ([], Done (Some (if bumpMajor then major
                     else if bumpMinor then minor else patch))).
Proof. reflexivity. Qed.

Lemma for_commits_ignored c rest bumpMajor bumpMinor :
  ignored c = true ->
  loop (c :: rest) bumpMajor bumpMinor =
    (Debug ("Ignoring commit message: '" ++ message c ++ "'")
       :: events (loop rest bumpMajor bumpMinor),
     outcome (loop rest bumpMajor bumpMinor)).
Proof.
  unfold ignored. intros H. cbn [for_commits]. rewrite H.
  unfold core.debug. now rewrite bind_emit.
Qed.

Lemma for_commits_parsed c cm rest bumpMajor bumpMinor :
  ignored c = false ->
  cc_parser (message c) = Some cm ->
  let breaking := existsb noteHasBreakingChange (notes cm) in
  let feature := JS.includes MINOR_LIST (JS.toLowerCase (type cm)) in
  let next := loop rest (bumpMajor || breaking)
                (bumpMinor || (negb breaking && feature)) in
  loop (c :: rest) bumpMajor bumpMinor =
    (ParserCall (message c) :: events next, outcome next).
Proof.
  unfold ignored. intros H Hp. cbn [for_commits]. rewrite H.
  rewrite bind_parse, Hp. cbn zeta.
  destruct (existsb noteHasBreakingChange (notes cm)); cbn [negb andb].
  - rewrite orb_true_r, orb_false_r. unfold events, outcome. cbn [fst snd].
    now destruct (for_commits _ _ rest true bumpMinor).
  - rewrite orb_false_r.
    destruct (JS.includes MINOR_LIST (JS.toLowerCase (type cm)));
      [rewrite orb_true_r | rewrite orb_false_r];
      unfold events, outcome; cbn [fst snd];
      now destruct (for_commits _ _ rest _ _).
Qed.

Lemma for_commits_malformed c rest bumpMajor bumpMinor :
  ignored c = false ->
  cc_parser (message c) = None ->
  loop (c :: rest) bumpMajor bumpMinor =
    match reaction with
    | ERROR =>
        ([ParserCall (message c);
          SetFailed (not_conventional (message c))], Done None)
    | WARN =>
        (ParserCall (message c) :: Warning (not_conventional (message c))
           :: events (loop rest bumpMajor bumpMinor),
         outcome (loop rest bumpMajor bumpMinor))
    | IGNORE =>
        (ParserCall (message c) :: events (loop rest bumpMajor bumpMinor),
         outcome (loop rest bumpMajor bumpMinor))
    end.
Proof.
  unfold ignored. intros H Hp. cbn [for_commits]. rewrite H.
  rewrite bind_parse, Hp.
  destruct reaction.
  - reflexivity.
  - unfold core.warning. rewrite bind_emit. reflexivity.
  - unfold events, outcome. cbn [fst snd].
    now destruct (for_commits _ _ rest _ _).
Qed.

Lemma commit_cases c : commit_case cc_parser c.
Proof.
  destruct (ignored c) eqn:Hi; [now apply case_ignored |].
  destruct (cc_parser (message c)) as [cm |] eqn:Hp.
  - now apply (case_parsed cc_parser c cm).
  - now apply case_malformed.
Qed.

Lemma kinds_ignored c :
  ignored c = true ->
  malformed cc_parser c = false /\ breaking_commit cc_parser c = false
  /\ feature_commit cc_parser c = false.
Proof.
  intros H. unfold malformed, breaking_commit, feature_commit.
  rewrite H. repeat split.
Qed.

Lemma kinds_parsed c cm :
  ignored c = false -> cc_parser (message c) = Some cm ->
  malformed cc_parser c = false
  /\ breaking_commit cc_parser c = existsb noteHasBreakingChange (notes cm)
  /\ feature_commit cc_parser c
     = JS.includes MINOR_LIST (JS.toLowerCase (type cm)).
Proof.
  intros H Hp. unfold malformed, breaking_commit, feature_commit.
  rewrite H, Hp. repeat split.
Qed.

Lemma kinds_malformed c :
  ignored c = false -> cc_parser (message c) = None ->
  malformed cc_parser c = true /\ breaking_commit cc_parser c = false
  /\ feature_commit cc_parser c = false.
Proof.
  intros H Hp. unfold malformed, breaking_commit, feature_commit.
  rewrite H, Hp. repeat split.
Qed.

(** The value of the loop, from any values of the two flags. *)
Lemma for_commits_outcome commits bumpMajor bumpMinor :
  outcome (loop commits bumpMajor bumpMinor) =
    Done (if aborts cc_parser reaction commits then None
          else Some
            (if bumpMajor || existsb (breaking_commit cc_parser) commits
             then major
             else if bumpMinor || existsb (feature_commit cc_parser) commits
                  then minor
                  else patch)).
Proof.
  revert bumpMajor bumpMinor.
  induction commits as [| c rest IH]; intros bumpMajor bumpMinor.
  - rewrite for_commits_nil. cbn [outcome snd existsb].
    rewrite !orb_false_r. now destruct reaction.
  - destruct (commit_cases c) as [Hi | cm Hi Hp | Hi Hp].
    + rewrite for_commits_ignored by assumption. cbn [outcome snd].
      fold (outcome (loop rest bumpMajor bumpMinor)). rewrite IH.
      destruct (kinds_ignored c Hi) as (Hm & Hb & Hf).
      cbn [existsb]. rewrite Hb, Hf. cbn [orb].
      destruct reaction; cbn [aborts existsb]; now rewrite ?Hm.
    + rewrite (for_commits_parsed c cm) by assumption. cbn zeta.
      cbn [outcome snd]. fold (outcome (loop rest (bumpMajor
        || existsb noteHasBreakingChange (notes cm)) (bumpMinor
        || negb (existsb noteHasBreakingChange (notes cm))
           && JS.includes MINOR_LIST (JS.toLowerCase (type cm))))).
      rewrite IH.
      destruct (kinds_parsed c cm Hi Hp) as (Hm & Hb & Hf).
      cbn [existsb]. rewrite Hb, Hf.
      replace (aborts cc_parser reaction (c :: rest))
        with (aborts cc_parser reaction rest)
        by (destruct reaction; cbn [aborts existsb]; now rewrite ?Hm).
      destruct (aborts cc_parser reaction rest); [reflexivity |].
      destruct bumpMajor, bumpMinor,
        (existsb noteHasBreakingChange (notes cm)),
        (JS.includes MINOR_LIST (JS.toLowerCase (type cm))),
        (existsb (breaking_commit cc_parser) rest),
        (existsb (feature_commit cc_parser) rest); reflexivity.
    + rewrite for_commits_malformed by assumption.
      destruct (kinds_malformed c Hi Hp) as (Hm & Hb & Hf).
      cbn [existsb]. rewrite Hb, Hf. cbn [orb].
      destruct reaction; cbn [aborts existsb outcome snd]; rewrite ?Hm;
        cbn [orb]; [reflexivity | |];
        fold (outcome (loop rest bumpMajor bumpMinor)); now rewrite IH.
Qed.

(** The trace of the loop does not depend on the flags. *)
Lemma for_commits_events_flags commits bM bm bM' bm' :
  events (loop commits bM bm) = events (loop commits bM' bm').
Proof.
  revert bM bm bM' bm'.
  induction commits as [| c rest IH]; intros bM bm bM' bm'.
  - reflexivity.
  - destruct (commit_cases c) as [Hi | cm Hi Hp | Hi Hp].
    + rewrite !for_commits_ignored by assumption. cbn [events fst].
      f_equal. apply IH.
    + rewrite !(for_commits_parsed c cm) by assumption. cbn zeta.
      cbn [events fst]. f_equal. apply IH.
    + rewrite !for_commits_malformed by assumption.
      destruct reaction; cbn [events fst]; [reflexivity | |];
        now rewrite (IH bM bm bM' bm').
Qed.

End ClassifierSteps.

(** ** The classifier on whole sequences *)

Section ClassifierRuns.

Variable cc_parser : string -> option ConventionalCommit.
Variable reaction : NotConventionalCommitsReaction.

Local Notation "'loop'" := (for_commits cc_parser reaction).

(** Through a prefix without malformed commits the loop logs one event per
    commit and goes on with the rest. *)
Lemma for_commits_events_app pre rest bM bm :
  existsb (malformed cc_parser) pre = false ->
  events (loop (pre ++ rest) bM bm) =
    (map visit pre ++ events (loop rest bM bm))%list.
Proof.
  revert bM bm. induction pre as [| c pre IH]; intros bM bm Hpre.
  - reflexivity.
  - cbn [existsb] in Hpre. apply orb_false_iff in Hpre as [Hc Hpre].
    cbn [app map]. unfold visit at 1.
    destruct (commit_cases cc_parser c) as [Hi | cm Hi Hp | Hi Hp].
    + rewrite for_commits_ignored by assumption.
      rewrite Hi. cbn [events fst]. f_equal. now apply IH.
    + rewrite (for_commits_parsed _ _ c cm) by assumption.
      rewrite Hi. cbn zeta. cbn [events fst]. f_equal.
      rewrite IH by assumption. f_equal.
      apply for_commits_events_flags.
    + destruct (kinds_malformed cc_parser c Hi Hp) as (Hm & _).
      congruence.
Qed.

Lemma parser_calls_app evs evs' :
  parser_calls (evs ++ evs') = (parser_calls evs ++ parser_calls evs')%list.
Proof.
  induction evs as [| e evs IH]; [reflexivity |].
  destruct e; cbn [app parser_calls]; now rewrite IH.
Qed.

Lemma parser_calls_visit commits :
  parser_calls (map visit commits) = map message (filter not_ignored commits).
Proof.
  induction commits as [| c commits IH]; [reflexivity |].
  cbn [map filter]. unfold visit at 1, not_ignored at 1.
  destruct (ignored c); cbn [negb parser_calls map]; now rewrite IH.
Qed.

(** The parser is only ever called on messages outside the ignore pattern. *)
Lemma parser_call_not_ignored commits bM bm m :
  In (ParserCall m) (events (loop commits bM bm)) ->
  IGNORE_MESSAGE_PATTERN_test m = false.
Proof.
  revert bM bm. induction commits as [| c rest IH]; intros bM bm.
  - intros [].
  - destruct (commit_cases cc_parser c) as [Hi | cm Hi Hp | Hi Hp].
    + rewrite for_commits_ignored by assumption.
      cbn [events fst]. intros [H | H]; [discriminate | now apply IH in H].
    + rewrite (for_commits_parsed _ _ c cm) by assumption.
      cbn zeta. cbn [events fst]. intros [H | H].
      * injection H as <-. exact Hi.
      * now apply IH in H.
    + rewrite for_commits_malformed by assumption.
      destruct reaction; cbn [events fst].
      * intros [H | [H | []]]; [injection H as <-; exact Hi | discriminate].
      * intros [H | [H | H]];
          [injection H as <-; exact Hi | discriminate | now apply IH in H].
      * intros [H | H]; [injection H as <-; exact Hi | now apply IH in H].
Qed.


End ClassifierRuns.

Lemma existsb_all_false {A} (f : A -> bool) (l : list A) :
  (forall x, In x l -> f x = false) -> existsb f l = false.
Proof.
  induction l as [| a l IH]; intros H; [reflexivity |].
  cbn [existsb]. rewrite (H a (or_introl eq_refl)), IH; [reflexivity |].
  intros x Hx. apply H. now right.
Qed.

Lemma noteHasBreakingChange_iff (note : Note) :
  noteHasBreakingChange note = true <-> title note = "BREAKING CHANGE".
Proof. unfold noteHasBreakingChange, JS.strict_eq. apply String.eqb_eq. Qed.

Lemma some_breaking_note_iff (l : list Note) :
  existsb noteHasBreakingChange l = true <->
  exists note, In note l /\ title note = "BREAKING CHANGE".
Proof.
  rewrite existsb_exists.
  split; intros (note & Hin & H); exists note; split; try assumption;
    now apply noteHasBreakingChange_iff.
Qed.

(** ** Claims about the bump classifier *)

(** The code's lower-casing against the spelling of a word in any case. *)
Lemma lower_ascii_spells_letter (w c : ascii) :
  In w ["f"; "e"; "a"; "t"; "u"; "r"]%char ->
  Ascii.eqb (JS.lower_ascii c) w
    = Ascii.eqb c w || Ascii.eqb c (Spec.capital w).
Proof.
  intros [<- | [<- | [<- | [<- | [<- | [<- | []]]]]]];
    destruct c as [[] [] [] [] [] [] [] []]; reflexivity.
Qed.

Lemma toLowerCase_spells (word ty : string) :
  Forall (fun w => In w ["f"; "e"; "a"; "t"; "u"; "r"]%char)
    (list_ascii_of_string word) ->
  String.eqb (JS.toLowerCase ty) word = Spec.spells word ty.
Proof.
  revert ty. induction word as [| w word IH]; intros ty Hw.
  - now destruct ty.
  - cbn [list_ascii_of_string] in Hw. inversion Hw as [| ? ? Hin Hrest]; subst.
    destruct ty as [| c ty]; [reflexivity |].
    cbn [JS.toLowerCase Spec.spells String.eqb].
    rewrite (lower_ascii_spells_letter w c Hin), (IH ty Hrest).
    now destruct (Ascii.eqb c w || Ascii.eqb c (Spec.capital w)).
Qed.

(** [MINOR_LIST.includes(type.toLowerCase())] holds exactly of the types
    that spell [feat] or [feature]. *)
Lemma MINOR_LIST_includes_lower_case (ty : string) :
  JS.includes MINOR_LIST (JS.toLowerCase ty) = Spec.is_feature_type ty.
Proof.
  unfold JS.includes, MINOR_LIST, JS.strict_eq, Spec.is_feature_type.
  cbn [existsb]. rewrite orb_false_r.
  rewrite !toLowerCase_spells; [reflexivity | |];
    cbn [list_ascii_of_string];
    repeat (apply Forall_cons; [simpl; auto 10 |]); apply Forall_nil.
Qed.

(** [notes.some(noteHasBreakingChange)] holds exactly of the commits with a
    note titled [BREAKING CHANGE]. *)
Lemma some_noteHasBreakingChange (cm : ConventionalCommit) :
  existsb noteHasBreakingChange (notes cm) = Spec.has_breaking_change_note cm.
Proof. reflexivity. Qed.

Lemma kinds_as_specified (cc_parser : string -> option ConventionalCommit)
    (c : Commit) :
  malformed cc_parser c = Spec.malformed cc_parser c
  /\ breaking_commit cc_parser c = Spec.breaking cc_parser c
  /\ feature_commit cc_parser c = Spec.feature cc_parser c.
Proof.
  unfold malformed, breaking_commit, feature_commit, Spec.malformed,
    Spec.breaking, Spec.feature, ignored, IGNORE_MESSAGE_PATTERN_test,
    Spec.begins_with_Merge.
  split; [reflexivity | split].
  - destruct (cc_parser (message c)) as [cm |]; [| reflexivity].
    exact (f_equal (andb _) (some_noteHasBreakingChange cm)).
  - destruct (cc_parser (message c)) as [cm |]; [| reflexivity].
    exact (f_equal (andb _) (MINOR_LIST_includes_lower_case (type cm))).
Qed.

Lemma existsb_pointwise {A} (f g : A -> bool) (l : list A) :
  (forall a, f a = g a) -> existsb f l = existsb g l.
Proof.
  intros H. induction l as [| a l IH]; [reflexivity |].
  cbn [existsb]. now rewrite H, IH.
Qed.

(** C1. [getBumpTypeFromCommits] computes the classification of the
    specification.  It is aborted, returning no bump type, exactly under the
    ERROR policy with a commit that does not begin with ['Merge '] and does
    not parse.  Otherwise it returns MAJOR if some commit that does not
    begin with ['Merge '] and parses has a note titled exactly
    [BREAKING CHANGE], else MINOR if some such commit has a type that is
    [feat] or [feature] once lower-cased, else PATCH.  The empty sequence
    yields PATCH under every policy. *)
Theorem getBumpTypeFromCommits_result
    (cc_parser : string -> option ConventionalCommit)
    (commits : list Commit) (reaction : NotConventionalCommitsReaction) :
  outcome (getBumpTypeFromCommits cc_parser commits reaction) =
    Done (if Spec.aborted cc_parser reaction commits then None
          else Some
            (if existsb (Spec.breaking cc_parser) commits then major
             else if existsb (Spec.feature cc_parser) commits then minor
             else patch))
  /\ outcome (getBumpTypeFromCommits cc_parser [] reaction)
     = Done (Some patch).
Proof.
  split; [| reflexivity].
  unfold getBumpTypeFromCommits. rewrite for_commits_outcome. cbn [orb].
  rewrite (existsb_pointwise (breaking_commit cc_parser)
             (Spec.breaking cc_parser))
    by (intros c; apply kinds_as_specified).
  rewrite (existsb_pointwise (feature_commit cc_parser)
             (Spec.feature cc_parser))
    by (intros c; apply kinds_as_specified).
  replace (aborts cc_parser reaction commits)
    with (Spec.aborted cc_parser reaction commits); [reflexivity |].
  destruct reaction; cbn [aborts Spec.aborted]; [| reflexivity ..].
  symmetry. apply existsb_pointwise. intros c. apply kinds_as_specified.
Qed.

(** The types the classifier takes for a feature, on examples. *)
Example feature_types :
  Spec.is_feature_type "feat" = true
  /\ Spec.is_feature_type "Feature" = true
  /\ Spec.is_feature_type "FEAT" = true
  /\ Spec.is_feature_type "feats" = false
  /\ Spec.is_feature_type "fix" = false
  /\ Spec.is_feature_type "" = false.
Proof. repeat split. Qed.

(** C2. Under the ERROR policy, at the first non-ignored commit whose message
    the parser rejects, the classifier stops: the trace is one event per
    earlier commit, the parser call on the offending message and the failure
    naming that message, nothing after it; the parser was called on the
    non-ignored messages up to and including the offending one and on no
    later message; and the call returns no bump type. *)
Theorem error_policy_aborts_at_first_malformed
    (cc_parser : string -> option ConventionalCommit)
    (pre : list Commit) (c : Commit) (post : list Commit) :
  existsb (malformed cc_parser) pre = false ->
  malformed cc_parser c = true ->
  let run := getBumpTypeFromCommits cc_parser (pre ++ c :: post) ERROR in
  outcome run = Done None
  /\ events run =
       (map visit pre ++
        [ParserCall (message c);
         SetFailed ("Commit message not in conventional-commits format: '"
                    ++ message c ++ "'")])%list
  /\ parser_calls (events run) =
       (map message (filter not_ignored pre) ++ [message c])%list.
Proof.
  intros Hpre Hc run.
  assert (Hi : ignored c = false /\ cc_parser (message c) = None).
  { unfold malformed in Hc. destruct (ignored c); [discriminate |].
    destruct (cc_parser (message c)); [discriminate | now split]. }
  destruct Hi as [Hi Hp].
  assert (Hev : events run =
    (map visit pre ++
     [ParserCall (message c); SetFailed (not_conventional (message c))])%list).
  { unfold run, getBumpTypeFromCommits.
    rewrite for_commits_events_app by assumption.
    now rewrite for_commits_malformed by assumption. }
  split; [| split].
  - unfold run, getBumpTypeFromCommits. rewrite for_commits_outcome.
    cbn [aborts]. rewrite existsb_app. cbn [existsb]. rewrite Hc.
    now rewrite orb_true_r.
  - exact Hev.
  - rewrite Hev, parser_calls_app, parser_calls_visit. reflexivity.
Qed.

Lemma error_policy_aborts_at_first_malformed_witness :
  let pre := [mkCommit "a1" "feat: add new user authentication";
              mkCommit "b2" "Merge branch feature into main"] in
  let c := mkCommit "c3" "Add some new features" in
  let post := [mkCommit "d4" "feat!: remove deprecated API endpoints"] in
  let run := getBumpTypeFromCommits Sample.cc_parser (pre ++ c :: post) ERROR in
  outcome run = Done None
  /\ events run =
       [ParserCall "feat: add new user authentication";
        Debug "Ignoring commit message: 'Merge branch feature into main'";
        ParserCall "Add some new features";
        SetFailed "Commit message not in conventional-commits format: 'Add some new features'"]
  /\ parser_calls (events run) =
       ["feat: add new user authentication"; "Add some new features"].
Proof.
  exact (error_policy_aborts_at_first_malformed Sample.cc_parser
           [mkCommit "a1" "feat: add new user authentication";
            mkCommit "b2" "Merge branch feature into main"]
           (mkCommit "c3" "Add some new features")
           [mkCommit "d4" "feat!: remove deprecated API endpoints"]
           eq_refl eq_refl).
Defined.

(** C5. For a successfully parsed commit the loop goes on with
    [bumpMajor] set if and only if it was set already or some note of the
    commit has the title [BREAKING CHANGE], compared exactly; so a
    classification of that commit alone is MAJOR if and only if a note has
    that exact title, whatever the body of the message says. *)
Theorem major_iff_breaking_change_note
    (cc_parser : string -> option ConventionalCommit)
    (reaction : NotConventionalCommitsReaction)
    (c : Commit) (cm : ConventionalCommit) :
  ignored c = false ->
  cc_parser (message c) = Some cm ->
  let breaking_note :=
    exists note, In note (notes cm) /\ title note = "BREAKING CHANGE" in
  (forall rest bumpMajor bumpMinor,
     exists bumpMajor' bumpMinor',
       for_commits cc_parser reaction (c :: rest) bumpMajor bumpMinor =
         (ParserCall (message c)
            :: events (for_commits cc_parser reaction rest
                         bumpMajor' bumpMinor'),
          outcome (for_commits cc_parser reaction rest
                     bumpMajor' bumpMinor'))
       /\ (bumpMajor' = true <-> bumpMajor = true \/ breaking_note))
  /\ (outcome (getBumpTypeFromCommits cc_parser [c] reaction)
        = Done (Some major) <-> breaking_note).
Proof.
  intros Hi Hp breaking_note. split.
  - intros rest bM bm.
    exists (bM || existsb noteHasBreakingChange (notes cm)),
      (bm || negb (existsb noteHasBreakingChange (notes cm))
             && JS.includes MINOR_LIST (JS.toLowerCase (type cm))).
    split.
    + now rewrite (for_commits_parsed _ _ c cm) by assumption.
    + rewrite orb_true_iff, some_breaking_note_iff. reflexivity.
  - unfold getBumpTypeFromCommits. rewrite for_commits_outcome.
    destruct (kinds_parsed cc_parser c cm Hi Hp) as (Hm & Hb & Hf).
    replace (aborts cc_parser reaction [c]) with false
      by (destruct reaction; cbn [aborts existsb]; now rewrite ?Hm).
    cbn [existsb orb]. rewrite Hb, orb_false_r.
    unfold breaking_note. rewrite <- some_breaking_note_iff.
    destruct (existsb noteHasBreakingChange (notes cm)).
    + split; reflexivity.
    + split; [| discriminate].
      destruct (feature_commit cc_parser c || false); discriminate.
Qed.

Lemma major_iff_breaking_change_note_witness :
  let c := mkCommit "e5"
             ("fix: describe the upgrade" ++ Sample.LF ++ Sample.LF
              ++ "Prose that mentions a BREAKING CHANGE is not a footer.") in
  outcome (getBumpTypeFromCommits Sample.cc_parser [c] WARN)
    = Done (Some major) <->
  exists note,
    In note (@nil Note) /\ title note = "BREAKING CHANGE".
Proof.
  exact (proj2 (major_iff_breaking_change_note Sample.cc_parser WARN
           (mkCommit "e5"
              ("fix: describe the upgrade" ++ Sample.LF ++ Sample.LF
               ++ "Prose that mentions a BREAKING CHANGE is not a footer."))
           (mkConventionalCommit "fix"
              (Some "Prose that mentions a BREAKING CHANGE is not a footer.")
              [])
           eq_refl eq_refl)).
Defined.

(** C6. The parser is never called on a message that begins with
    ['Merge ']; and on a sequence in which every message begins with
    ['Merge '] the classifier only logs one trace-level note per commit and
    yields PATCH, under every policy. *)
Theorem merge_commits_are_skipped
    (cc_parser : string -> option ConventionalCommit)
    (commits : list Commit) (reaction : NotConventionalCommitsReaction) :
  (forall tail,
     ~ In (ParserCall ("Merge " ++ tail))
          (events (getBumpTypeFromCommits cc_parser commits reaction)))
  /\ ((forall c, In c commits -> exists tail, message c = "Merge " ++ tail) ->
      getBumpTypeFromCommits cc_parser commits reaction =
        (map (fun c => Debug ("Ignoring commit message: '"
                              ++ message c ++ "'")) commits,
         Done (Some patch))).
Proof.
  split.
  - intros tail H. apply parser_call_not_ignored in H.
    now rewrite IGNORE_MESSAGE_PATTERN_test_Merge in H.
  - intros Hall.
    assert (Hign : forall c, In c commits -> ignored c = true).
    { intros c Hc. destruct (Hall c Hc) as [tail E]. unfold ignored.
      rewrite E. apply IGNORE_MESSAGE_PATTERN_test_Merge. }
    rewrite (action_eta (getBumpTypeFromCommits _ _ _)). f_equal.
    + unfold getBumpTypeFromCommits.
      rewrite <- (app_nil_r commits) at 1.
      rewrite for_commits_events_app.
      * cbn [for_commits ret events fst]. rewrite app_nil_r.
        apply map_ext_in. intros c Hc. unfold visit.
        now rewrite (Hign c Hc).
      * apply existsb_all_false. intros c Hc.
        now destruct (kinds_ignored cc_parser c (Hign c Hc)).
    + unfold getBumpTypeFromCommits. rewrite for_commits_outcome.
      assert (Hm : existsb (malformed cc_parser) commits = false).
      { apply existsb_all_false. intros c Hc.
        now destruct (kinds_ignored cc_parser c (Hign c Hc)). }
      assert (Hb : existsb (breaking_commit cc_parser) commits = false).
      { apply existsb_all_false. intros c Hc.
        now destruct (kinds_ignored cc_parser c (Hign c Hc)) as (_ & ? & _). }
      assert (Hf : existsb (feature_commit cc_parser) commits = false).
      { apply existsb_all_false. intros c Hc.
        now destruct (kinds_ignored cc_parser c (Hign c Hc)) as (_ & _ & ?). }
      rewrite Hb, Hf. destruct reaction; cbn [aborts]; now rewrite ?Hm.
Qed.

Lemma merge_commits_are_skipped_witness :
  getBumpTypeFromCommits Sample.cc_parser
    [mkCommit "abc123" "Merge branch feature into main";
     mkCommit "def456" "Merge pull request #123 from user/branch"] ERROR =
    ([Debug "Ignoring commit message: 'Merge branch feature into main'";
      Debug "Ignoring commit message: 'Merge pull request #123 from user/branch'"],
     Done (Some patch)).
Proof.
  apply (proj2 (merge_commits_are_skipped Sample.cc_parser
                  [mkCommit "abc123" "Merge branch feature into main";
                   mkCommit "def456" "Merge pull request #123 from user/branch"]
                  ERROR)).
  intros c [<- | [<- | []]].
  - exists "branch feature into main". reflexivity.
  - exists "pull request #123 from user/branch". reflexivity.
Defined.


(** C10. Under the WARN and the IGNORE policy, both the classification of a
    sequence and that of the sequence with one more commit appended return a
    bump type, and the second is not below the first in the order
    PATCH < MINOR < MAJOR. *)
Theorem appending_a_commit_never_lowers_the_bump
    (cc_parser : string -> option ConventionalCommit)
    (commits : list Commit) (c : Commit)
    (reaction : NotConventionalCommitsReaction) :
  reaction = WARN \/ reaction = IGNORE ->
  exists before after,
    outcome (getBumpTypeFromCommits cc_parser commits reaction)
      = Done (Some before)
    /\ outcome (getBumpTypeFromCommits cc_parser (commits ++ [c]) reaction)
       = Done (Some after)
    /\ severity before <= severity after.
Proof.
  intros Hr.
  exists (bump_of cc_parser commits), (bump_of cc_parser (commits ++ [c])).
  assert (Ha : forall l, aborts cc_parser reaction l = false)
    by (intros l; destruct Hr; subst; reflexivity).
  unfold getBumpTypeFromCommits. rewrite !for_commits_outcome, !Ha.
  cbn [orb]. repeat split.
  unfold bump_of. rewrite !existsb_app. cbn [existsb].
  destruct (existsb (breaking_commit cc_parser) commits),
    (existsb (feature_commit cc_parser) commits),
    (breaking_commit cc_parser c), (feature_commit cc_parser c);
    cbn [orb severity]; lia.
Qed.

Lemma appending_a_commit_never_lowers_the_bump_witness :
  exists before after,
    outcome (getBumpTypeFromCommits Sample.cc_parser
               [mkCommit "a1" "feat: add new user authentication";
                mkCommit "c3" "Add some new features"] WARN)
      = Done (Some before)
    /\ outcome (getBumpTypeFromCommits Sample.cc_parser
                  ([mkCommit "a1" "feat: add new user authentication";
                    mkCommit "c3" "Add some new features"]
                   ++ [mkCommit "f6" "fix: update user model"]) WARN)
       = Done (Some after)
    /\ severity before <= severity after.
Proof.
  apply (appending_a_commit_never_lowers_the_bump Sample.cc_parser
           [mkCommit "a1" "feat: add new user authentication";
            mkCommit "c3" "Add some new features"]
           (mkCommit "f6" "fix: update user model") WARN).
  left. reflexivity.
Defined.

(** ** The expectations of logic.spec.ts, on the model *)

Example noteHasBreakingChange_title :
  noteHasBreakingChange
    (mkNote "BREAKING CHANGE" "Some breaking change description") = true.
Proof. reflexivity. Qed.

Example noteHasBreakingChange_other_title :
  noteHasBreakingChange (mkNote "Some other title" "Some text") = false.
Proof. reflexivity. Qed.

Example noteHasBreakingChange_is_case_sensitive :
  noteHasBreakingChange (mkNote "Breaking Change" "Some text") = false.
Proof. reflexivity. Qed.

Example feat_and_fix_give_minor :
  outcome (getBumpTypeFromCommits Sample.cc_parser
             [mkCommit "abc123" "feat: add new user authentication";
              mkCommit "def456" "fix(api): implement user profile endpoints"]
             WARN) = Done (Some minor).
Proof. reflexivity. Qed.

Example breaking_and_fix_give_major :
  outcome (getBumpTypeFromCommits Sample.cc_parser
             [mkCommit "abc123" "feat!: remove deprecated API endpoints";
              mkCommit "def456" "fix: update user model"]
             WARN) = Done (Some major).
Proof. reflexivity. Qed.

Example malformed_commits_warn :
  getBumpTypeFromCommits Sample.cc_parser
    [mkCommit "abc123" "Add some new features";
     mkCommit "def456" "Bug fixes and improvements"] WARN =
    ([ParserCall "Add some new features";
      Warning "Commit message not in conventional-commits format: 'Add some new features'";
      ParserCall "Bug fixes and improvements";
      Warning "Commit message not in conventional-commits format: 'Bug fixes and improvements'"],
     Done (Some patch)).
Proof. reflexivity. Qed.

Example malformed_commits_error :
  getBumpTypeFromCommits Sample.cc_parser
    [mkCommit "abc123" "Add some new features";
     mkCommit "def456" "Bug fixes and improvements"] ERROR =
    ([ParserCall "Add some new features";
      SetFailed "Commit message not in conventional-commits format: 'Add some new features'"],
     Done None).
Proof. reflexivity. Qed.

Example malformed_commits_ignore :
  getBumpTypeFromCommits Sample.cc_parser
    [mkCommit "abc123" "Add some new features";
     mkCommit "def456" "Bug fixes and improvements"] IGNORE =
    ([ParserCall "Add some new features";
      ParserCall "Bug fixes and improvements"],
     Done (Some patch)).
Proof. reflexivity. Qed.

(** ** The pre-release suffixer *)

Lemma prefix_append (s t : string) : String.prefix s (s ++ t) = true.
Proof.
  induction s as [| a s IH]; [now destruct t |].
  cbn. destruct (ascii_dec a a); [exact IH | congruence].
Qed.

Lemma length_append (s t : string) :
  String.length (s ++ t) = String.length s + String.length t.
Proof. induction s as [| a s IH]; cbn; [reflexivity | now rewrite IH]. Qed.

(** C8. The suffix operation returns the version, then the glue as given,
    then the short form of the hash of the triggering revision; the version
    is kept as it was at the front of the result; and with the hash
    [abcdef1234567890], whose short form is [abcdef1], the version [1.2.3]
    and the glue [-rc.] give [1.2.3-rc.abcdef1]. *)
Theorem suffixWithPreRelease_appends_glue_and_short_hash
    (context_sha version glue : string) :
  suffixWithPreRelease context_sha version glue
    = version ++ glue ++ short_hash context_sha
  /\ String.prefix version (suffixWithPreRelease context_sha version glue)
     = true
  /\ String.length (suffixWithPreRelease context_sha version glue)
     = String.length version + String.length glue
       + String.length (short_hash context_sha)
  /\ short_hash "abcdef1234567890" = "abcdef1"
  /\ suffixWithPreRelease "abcdef1234567890" "1.2.3" "-rc."
     = "1.2.3-rc.abcdef1".
Proof.
  unfold suffixWithPreRelease. repeat split.
  - apply prefix_append.
  - rewrite !length_append. lia.
Qed.

(** ** The commit-range client *)

Section RangeClient.

Variable this : GitHubClient.
Variables rangeBegin rangeEnd : string.

Local Notation "'compare_page' page" :=
  (repos_compareCommitsWithBasehead (octokit this) (repoOwner this)
     (repoName this) (rangeBegin ++ "..." ++ rangeEnd) page 100)
  (at level 10).

(** A first page that holds all the commits is returned as it is. *)
Lemma getListOfCommitsBetween_single_page fuel data :
  compare_page 0 = Ok data ->
  (length_Z (commits data) >= total_commits data)%Z ->
  outcome (getListOfCommitsBetween (S fuel) this rangeBegin rangeEnd) =
    Done (map (fun c => mkCommit (commit_sha c) (commit_message c))
            (commits data)).
Proof.
  intros Hpage Hall.
  assert (Hpush : forall cs l,
    exists ev, push_commits cs l =
      (ev, Done (l ++ map (fun c => mkCommit (commit_sha c)
                                     (commit_message c)) cs)%list)).
  { induction cs as [| c cs IH]; intros l; cbn [push_commits map].
    - exists []. now rewrite app_nil_r.
    - destruct (IH (l ++ [mkCommit (commit_sha c) (commit_message c)])%list)
        as [ev E].
      eexists. unfold core.debug. rewrite bind_emit, E.
      cbn [events outcome fst snd]. now rewrite <- app_assoc. }
  destruct (Hpush (commits data) []) as [ev E]. cbn [app] in E.
  unfold getListOfCommitsBetween. cbn [fetch_pages].
  rewrite Hpage. unfold core.debug. rewrite bind_emit.
  cbn [outcome snd]. unfold lift, try_catch. rewrite !bind_emit, bind_ret.
  rewrite !bind_emit, E. cbn.
  unfold length_Z in *. rewrite length_map.
  destruct (Z.geb_spec (Z.of_nat (length (commits data)))
              (total_commits data)); [reflexivity | lia].
Qed.

(** An error other than 404 on the first page is thrown to the caller. *)
Lemma getListOfCommitsBetween_rethrows fuel error :
  compare_page 0 = Fail error ->
  status_is_404 error = false ->
  getListOfCommitsBetween (S fuel) this rangeBegin rangeEnd =
    ([Debug ("Getting list of commits between " ++ rangeBegin
             ++ " and " ++ rangeEnd);
      Debug "Fetching commits page 0";
      Debug ("Error fetching commits: " ++ message_of error)],
     Threw error).
Proof.
  intros Hpage H404. unfold getListOfCommitsBetween. cbn [fetch_pages].
  rewrite Hpage. cbn. rewrite H404. reflexivity.
Qed.

(** C4, on the code.  When the range comparison answers not-found (404) on
    the first page, [getListOfCommitsBetween] does not fail: it leaves the
    loop and returns the empty list. *)
Theorem getListOfCommitsBetween_not_found_returns_empty fuel error :
  compare_page 0 = Fail error ->
  status error = Some 404%Z ->
  getListOfCommitsBetween (S fuel) this rangeBegin rangeEnd =
    ([Debug ("Getting list of commits between " ++ rangeBegin
             ++ " and " ++ rangeEnd);
      Debug "Fetching commits page 0";
      Debug ("Error fetching commits: " ++ message_of error);
      Debug "Total commits fetched: 0"],
     Done []).
Proof.
  intros Hpage H404. unfold getListOfCommitsBetween. cbn [fetch_pages].
  rewrite Hpage. cbn. unfold status_is_404. rewrite H404. reflexivity.
Qed.

End RangeClient.

Lemma getListOfCommitsBetween_not_found_returns_empty_witness :
  getListOfCommitsBetween 1
    (new_GitHubClient (Sample.repository Sample.unknown_range) "token"
       ["owner/repo"])
    "v1.0.0" "refs/heads/no-such-branch" =
    ([Debug "Getting list of commits between v1.0.0 and refs/heads/no-such-branch";
      Debug "Fetching commits page 0";
      Debug "Error fetching commits: Not Found";
      Debug "Total commits fetched: 0"],
     Done []).
Proof.
  exact (getListOfCommitsBetween_not_found_returns_empty
           (new_GitHubClient (Sample.repository Sample.unknown_range) "token"
              ["owner/repo"])
           "v1.0.0" "refs/heads/no-such-branch" 0 Sample.not_found
           eq_refl eq_refl).
Defined.

(** ** Traces of a given kind *)

Section Only.

Variable P : Event -> bool.

Lemma only_app evs evs' : only P evs -> only P evs' -> only P (evs ++ evs').
Proof. unfold only. intros H H'. apply Forall_app. now split. Qed.

Lemma only_In evs e : only P evs -> In e evs -> P e = true.
Proof. unfold only. rewrite Forall_forall. intros H Hin. now apply H. Qed.

Lemma only_ret {A} (a : A) : only P (events (ret a)).
Proof. constructor. Qed.

Lemma only_return {A} : only P (events (@return_ A)).
Proof. constructor. Qed.

Lemma only_throw {A} (e : Error) : only P (events (@throw A e)).
Proof. constructor. Qed.

Lemma only_lift {A} (t : Try A) : only P (events (lift t)).
Proof. destruct t; constructor. Qed.

Lemma only_emit e : P e = true -> only P (events (emit e)).
Proof. intros H. constructor; [exact H | constructor]. Qed.

Lemma only_bind {A B} (m : Action A) (k : A -> Action B) :
  only P (events m) -> (forall a, only P (events (k a))) ->
  only P (events (bind m k)).
Proof.
  intros Hm Hk. destruct m as [ev [a | | e |]]; cbn in *; try assumption.
  specialize (Hk a). destruct (k a) as [ev' o]. cbn in *.
  now apply only_app.
Qed.

Lemma only_try_catch {A} (m : Action A) (h : Error -> Action A) :
  only P (events m) -> (forall e, only P (events (h e))) ->
  only P (events (try_catch m h)).
Proof.
  intros Hm Hh. destruct m as [ev [a | | e |]]; cbn in *; try assumption.
  specialize (Hh e). destruct (h e) as [ev' o]. cbn in *.
  now apply only_app.
Qed.

Lemma only_if {A} (b : bool) (m m' : Action A) :
  only P (events m) -> only P (events m') ->
  only P (events (if b then m else m')).
Proof. now destruct b. Qed.

(** The traces of the client and of the classifier, for a [P] that holds of
    what they log. *)
Hypothesis P_debug : forall msg, P (Debug msg) = true.

Lemma only_push_commits cs listOfCommits :
  only P (events (push_commits cs listOfCommits)).
Proof.
  revert listOfCommits. induction cs as [| c cs IH]; intros l;
    cbn [push_commits].
  - apply only_ret.
  - apply only_bind; [apply only_emit, P_debug | intros _; apply IH].
Qed.

Lemma only_fetch_pages fuel this rangeBegin rangeEnd per_page l total page :
  only P (events (fetch_pages fuel this rangeBegin rangeEnd per_page
                    l total page)).
Proof.
  assert (Hd : forall msg, only P (events (core.debug msg)))
    by (intros msg; apply only_emit, P_debug).
  revert l total page. induction fuel as [| fuel IH]; intros l total page;
    cbn [fetch_pages].
  - constructor.
  - apply only_bind.
    + apply only_try_catch.
      * repeat (apply only_bind; [| intros]);
          auto using only_lift, only_ret, only_push_commits.
      * intros e. apply only_bind; [apply Hd |].
        intros _. destruct (status_is_404 e);
          auto using only_ret, only_throw.
    + intros [[l' total'] |].
      * destruct (length_Z l' >=? total')%Z; [| apply IH].
        apply only_bind; auto using only_ret.
      * apply only_bind; auto using only_ret.
Qed.

Lemma only_getListOfCommitsBetween fuel this rangeBegin rangeEnd :
  only P (events (getListOfCommitsBetween fuel this rangeBegin rangeEnd)).
Proof.
  unfold getListOfCommitsBetween. apply only_bind.
  - apply only_emit, P_debug.
  - intros _. apply only_fetch_pages.
Qed.

Hypothesis P_parser : forall msg, P (ParserCall msg) = true.
Hypothesis P_warning : forall msg, P (Warning msg) = true.
Hypothesis P_abort : forall msg, P (SetFailed (not_conventional msg)) = true.

Lemma only_for_commits cc_parser reaction commits bM bm :
  only P (events (for_commits cc_parser reaction commits bM bm)).
Proof.
  revert bM bm. induction commits as [| c rest IH]; intros bM bm.
  - constructor.
  - destruct (commit_cases cc_parser c) as [Hi | cm Hi Hp | Hi Hp].
    + rewrite for_commits_ignored by assumption. constructor; auto.
      apply IH.
    + rewrite (for_commits_parsed _ _ c cm) by assumption.
      constructor; auto. apply IH.
    + rewrite for_commits_malformed by assumption.
      destruct reaction; repeat (constructor; auto); apply IH.
Qed.

(** Actions that fall through. *)

Lemma done_only_of_only {A} (m : Action A) :
  only P (events m) -> done_only P m.
Proof. intros H evs a E. now rewrite E in H. Qed.

Lemma done_only_bind {A B} (m : Action A) (k : A -> Action B) :
  done_only P m -> (forall a, done_only P (k a)) -> done_only P (bind m k).
Proof.
  intros Hm Hk evs b E.
  apply bind_Done in E as (ev1 & a & ev2 & E1 & E2 & ->).
  apply only_app; [eapply Hm | eapply Hk]; eassumption.
Qed.

Lemma done_only_then_return {A B} (m : Action A) :
  done_only P (bind m (fun _ => @return_ B)).
Proof.
  intros evs b E. apply bind_Done in E as (ev1 & a & ev2 & _ & E2 & _).
  discriminate.
Qed.

Lemma done_only_try_catch_return {A B} (m : Action A)
    (h : Error -> Action B) :
  done_only P m ->
  done_only P (try_catch m (fun e => bind (h e) (fun _ => return_))).
Proof.
  intros Hm evs a E. destruct m as [ev [a' | | e |]]; cbn in E;
    try discriminate.
  - injection E as <- <-. now apply (Hm ev a').
  - destruct (h e) as [ev' [b | | e' |]]; cbn in E; discriminate.
Qed.

Lemma done_only_if {A} (b : bool) (m m' : Action A) :
  done_only P m -> done_only P m' -> done_only P (if b then m else m').
Proof. now destruct b. Qed.

(** Actions that stop early. *)

Lemma unless_done_bind {A B} (m : Action A) (k : A -> Action B) :
  only P (events m) -> (forall a, unless_done P (k a)) ->
  unless_done P (bind m k).
Proof.
  intros Hm Hk. destruct m as [ev [a | | e |]]; cbn in Hm;
    try (right; exact Hm).
  destruct (Hk a) as [[b Hb] | Hq]; unfold bind;
    destruct (k a) as [ev' o]; cbn in *.
  - left. now exists b.
  - right. now apply only_app.
Qed.

End Only.

(** ** The orchestration in [main] *)

Ltac inv_bind H :=
  let ev := fresh "ev" in
  let a := fresh "a" in
  let ev' := fresh "ev" in
  let Hm := fresh "Hm" in
  apply bind_Done in H as (ev & a & ev' & Hm & H & ->).

(** Proves [only P (events m)] for a block [m] of [main], given that [P]
    holds of the events the block can log. *)
Ltac only_block :=
  repeat first
    [ apply only_getListOfCommitsBetween; [intros; reflexivity]
    | apply only_for_commits; intros; reflexivity
    | apply only_if
    | apply only_bind; [| intros ]
    | apply only_try_catch; [| intros ]
    | apply only_ret
    | apply only_return
    | apply only_throw
    | apply only_lift
    | apply only_emit; reflexivity
    | match goal with
      | |- only _ (events (match ?x with _ => _ end)) => destruct x
      end ].

Lemma truthy_nullish (v : option string) :
  JS.truthy v = true -> v = Some (JS.nullish v "").
Proof. destruct v; [reflexivity | discriminate]. Qed.

Lemma emit_Done e evs (u : unit) : emit e = (evs, Done u) -> evs = [e].
Proof. unfold emit. now injection 1 as <-. Qed.

Section MainRuns.

Context (getOctokit : string -> Octokit).
Context {semver_lib : semver.Lib}.
Context (cc_parser : string -> option ConventionalCommit).
Context (context_sha : string).
Context (fuel : nat).

(** C9. In every run of [main] that reaches its end, the trace ends with
    the new version and the new major version being set: the major is
    [semver.major] of the version as incremented (or of the validated
    initial version when there is no release), taken before the suffix; the
    published version is that version when the target branch is the default
    branch reference, and that version suffixed otherwise; nothing earlier
    in the trace sets either output. *)
Theorem new_major_version_is_taken_before_the_suffix
    (fullRepoName githubToken targetBranch notConventionalCommitsReaction
     initReleaseVersion preReleaseVersionGlue : string) (evs : list Event) :
  main_body getOctokit cc_parser context_sha fuel fullRepoName githubToken
    targetBranch notConventionalCommitsReaction initReleaseVersion
    preReleaseVersionGlue = (evs, Done tt) ->
  exists (pre : list Event) (newVersion : string) (newMajorVersion : Z)
         (defaultBranch : string),
    ((exists tag currentVersion bumpType,
        outcome (getLatestReleaseTag
                   (new_GitHubClient getOctokit githubToken [fullRepoName]))
          = Done (Some tag)
        /\ semver.valid tag = Some currentVersion
        /\ semver.inc currentVersion bumpType = Some newVersion)
     \/ semver.valid initReleaseVersion = Some newVersion)
    /\ semver.major newVersion = Ok newMajorVersion
    /\ getDefaultBranchName
         (new_GitHubClient getOctokit githubToken [fullRepoName])
       = ([], Done defaultBranch)
    /\ (let published :=
          if JS.strict_eq targetBranch ("refs/heads/" ++ defaultBranch)
          then newVersion
          else suffixWithPreRelease context_sha newVersion
                 preReleaseVersionGlue in
        evs = (pre ++
               [Info ("New version: " ++ published);
                SetOutput "new-version" published;
                Info ("New major version: "
                      ++ JS.Number_toString newMajorVersion);
                SetOutput "new-major-version"
                  (JS.Number_toString newMajorVersion)])%list)
    /\ (forall name value,
          In (SetOutput name value) pre ->
          name = "latest-release-tag" \/ name = "current-version").
Proof.
  intros H. unfold main_body in H.
  inv_bind H. inv_bind H. inv_bind H. inv_bind H. inv_bind H.
  destruct a3 as [currentVersion newVersion].
  inv_bind H. inv_bind H. inv_bind H. inv_bind H. inv_bind H. inv_bind H. inv_bind H. inv_bind H.
  assert (Hq3 : only no_output ev3).
  { change ev3 with (events (ev3, Done (currentVersion, newVersion))).
    rewrite <- Hm3. unfold core.info, core.debug, core.setFailed.
    only_block. }
  assert (Hq : only no_output ev).
  { change ev with (events (ev, Done a)). rewrite <- Hm.
    unfold getNotConventionalCommitsReactionEnumFromString. cbn zeta.
    only_block. }
  assert (Hq1 : only no_output ev1).
  { change ev1 with (events (ev1, Done a0)). rewrite <- Hm0.
    unfold getLatestReleaseTag. only_block. }
  assert (Hprov :
    (exists tag cur bumpType,
        outcome (getLatestReleaseTag
                   (new_GitHubClient getOctokit githubToken [fullRepoName]))
          = Done (Some tag)
        /\ semver.valid tag = Some cur
        /\ semver.inc cur bumpType = Some newVersion)
    \/ semver.valid initReleaseVersion = Some newVersion).
  { destruct (JS.truthy a0) eqn:Ht.
    - destruct (JS.truthy (semver.valid (JS.nullish a0 ""))) eqn:Hv;
        cbn [negb] in Hm3; [| discriminate].
      inv_bind Hm3. inv_bind Hm3. inv_bind Hm3.
      destruct (JS.truthy (semver.inc _ a12)) eqn:Hi;
        cbn [negb] in Hm3; [| discriminate].
      injection Hm3 as _ _ <-.
      left. exists (JS.nullish a0 ""),
        (JS.nullish (semver.valid (JS.nullish a0 "")) ""), a12.
      split; [| split; now apply truthy_nullish].
      rewrite Hm0. cbn [outcome snd]. f_equal. now apply truthy_nullish.
    - destruct (JS.truthy (semver.valid initReleaseVersion)) eqn:Hv;
        cbn [negb] in Hm3; [| discriminate].
      injection Hm3 as _ _ <-. right. now apply truthy_nullish. }
  apply emit_Done in Hm1, Hm2, Hm4, Hm5, Hm9, Hm10, Hm11, H. subst.
  assert (Hmaj : semver.major newVersion = Ok a5 /\ ev6 = []).
  { destruct (semver.major newVersion); [| discriminate].
    now injection Hm6 as <- <-. }
  destruct Hmaj as [Hmaj ->].
  assert (Hdef : ev7 = []).
  { unfold getDefaultBranchName in Hm7.
    destruct (repos_get _ _ _); [| discriminate].
    now injection Hm7 as <- _. }
  subst ev7.
  exists (ev ++ ev1 ++
          [Info ("Latest release tag: " ++ JS.nullish a0 "");
           SetOutput "latest-release-tag" (JS.nullish a0 "")]
          ++ ev3 ++
          [Info ("Current version: " ++ currentVersion);
           SetOutput "current-version" currentVersion] ++ ev8)%list,
    newVersion, a5, a6.
  split; [exact Hprov |]. split; [exact Hmaj |]. split; [exact Hm7 |].
  assert (Hsuf :
    a7 = (if JS.strict_eq targetBranch ("refs/heads/" ++ a6)
          then newVersion
          else suffixWithPreRelease context_sha newVersion
                 preReleaseVersionGlue)
    /\ only no_output ev8).
  { destruct (JS.strict_eq targetBranch ("refs/heads/" ++ a6));
      cbn [negb] in Hm8.
    - injection Hm8 as <- <-. split; [reflexivity | constructor].
    - injection Hm8 as <- <-. split; [reflexivity |].
      repeat constructor. }
  destruct Hsuf as [-> Hq8].
  split.
  - cbn zeta. repeat first [rewrite <- app_assoc | progress cbn [app]].
    reflexivity.
  - intros name value Hin.
    assert (Hno : forall l,
               only no_output l -> ~ In (SetOutput name value) l).
    { intros l Hl Hx. now apply (only_In _ _ _ Hl) in Hx. }
    repeat (apply in_app_or in Hin as [Hin | Hin]);
      try (now apply Hno in Hin).
    + destruct Hin as [Hin | [Hin | []]]; [discriminate |].
      injection Hin as <- _. now left.
    + destruct Hin as [Hin | [Hin | []]]; [discriminate |].
      injection Hin as <- _. now right.
Qed.

(** A run that falls through the body of [main] has signalled no failure
    other than the classifier's: each failure [main] signals itself is
    followed by [return]. *)
Lemma main_body_failures_are_aborts
    (fullRepoName githubToken targetBranch notConventionalCommitsReaction
     initReleaseVersion preReleaseVersionGlue : string) :
  done_only no_failure_but_abort
    (main_body getOctokit cc_parser context_sha fuel fullRepoName githubToken
       targetBranch notConventionalCommitsReaction initReleaseVersion
       preReleaseVersionGlue).
Proof.
  unfold main_body, getBumpTypeFromCommits. cbn zeta.
  repeat first
    [ apply done_only_of_only, only_getListOfCommitsBetween; reflexivity
    | apply done_only_then_return
    | apply done_only_try_catch_return
    | apply done_only_if
    | apply done_only_bind; [| intros ]
    | match goal with
      | |- done_only _ (match ?x with _ => _ end) => destruct x
      end
    | apply done_only_of_only, only_for_commits;
        [ reflexivity | reflexivity | reflexivity
        | intros; apply prefix_append ]
    | apply done_only_of_only;
        unfold core.info, core.debug, core.setOutput,
          getNotConventionalCommitsReactionEnumFromString,
          getLatestReleaseTag, getDefaultBranchName;
        cbn zeta; solve [only_block] ].
Qed.

(** A run that does not fall through the body of [main] has not set
    [new-version]. *)
Lemma main_body_new_version_at_the_end
    (fullRepoName githubToken targetBranch notConventionalCommitsReaction
     initReleaseVersion preReleaseVersionGlue : string) :
  unless_done no_new_version
    (main_body getOctokit cc_parser context_sha fuel fullRepoName githubToken
       targetBranch notConventionalCommitsReaction initReleaseVersion
       preReleaseVersionGlue).
Proof.
  unfold main_body. cbn zeta.
  repeat first
    [ match goal with
      | |- unless_done _ (let (_, _) := ?x in _) => destruct x
      end
    | apply unless_done_bind;
        [ unfold core.info, core.debug, core.setOutput, core.setFailed,
            getNotConventionalCommitsReactionEnumFromString,
            getLatestReleaseTag, getDefaultBranchName,
            getBumpTypeFromCommits;
          cbn zeta; solve [only_block]
        | intros ] ].
  left. exists tt. reflexivity.
Qed.

Lemma events_call (body : Action unit) : events (call body) = events body.
Proof. now destruct body as [ev [[] | | e |]]. Qed.

(** In every run of [main], a failure after which [new-version] is still
    set is the classifier's abort; after each of the failures that [main]
    signals itself, nothing is set. *)
Lemma main_failure_with_new_version_is_abort
    (fullRepoName githubToken targetBranch notConventionalCommitsReaction
     initReleaseVersion preReleaseVersionGlue : string)
    (msg version : string) :
  let evs :=
    events (main getOctokit cc_parser context_sha fuel fullRepoName
              githubToken targetBranch notConventionalCommitsReaction
              initReleaseVersion preReleaseVersionGlue) in
  In (SetFailed msg) evs ->
  In (SetOutput "new-version" version) evs ->
  String.prefix "Commit message not in conventional-commits format: '" msg
    = true.
Proof.
  intros evs. unfold evs, main. rewrite events_call. intros Hf Hv.
  destruct (main_body_new_version_at_the_end fullRepoName githubToken
              targetBranch notConventionalCommitsReaction initReleaseVersion
              preReleaseVersionGlue) as [[[] Hd] | Hq].
  - pose proof (main_body_failures_are_aborts fullRepoName githubToken
                  targetBranch notConventionalCommitsReaction
                  initReleaseVersion preReleaseVersionGlue) as Ha.
    specialize (Ha _ tt (eq_trans (action_eta _) (f_equal _ Hd))).
    apply (only_In _ _ _ Ha Hf).
  - apply (only_In _ _ _ Hq) in Hv. discriminate.
Qed.

End MainRuns.

#[local] Existing Instance Sample.semver_lib.

(** On a feature branch the sample run publishes [1.0.1-abcdef1] and the
    major [1]. *)
Lemma new_major_version_is_taken_before_the_suffix_witness :
  exists (pre : list Event) (newVersion : string) (newMajorVersion : Z)
         (defaultBranch : string),
    ((exists tag currentVersion bumpType,
        outcome (getLatestReleaseTag
                   (new_GitHubClient
                      (Sample.repository Sample.one_malformed_commit)
                      "token" ["owner/repo"]))
          = Done (Some tag)
        /\ semver.valid tag = Some currentVersion
        /\ semver.inc currentVersion bumpType = Some newVersion)
     \/ semver.valid "1.0.0" = Some newVersion)
    /\ semver.major newVersion = Ok newMajorVersion
    /\ getDefaultBranchName
         (new_GitHubClient (Sample.repository Sample.one_malformed_commit)
            "token" ["owner/repo"])
       = ([], Done defaultBranch)
    /\ (let published :=
          if JS.strict_eq "refs/heads/develop" ("refs/heads/" ++ defaultBranch)
          then newVersion
          else suffixWithPreRelease Sample.context_sha newVersion "-" in
        events (Sample.body Sample.one_malformed_commit
                  "refs/heads/develop" "warn") =
          (pre ++
           [Info ("New version: " ++ published);
            SetOutput "new-version" published;
            Info ("New major version: "
                  ++ JS.Number_toString newMajorVersion);
            SetOutput "new-major-version"
              (JS.Number_toString newMajorVersion)])%list)
    /\ (forall name value,
          In (SetOutput name value) pre ->
          name = "latest-release-tag" \/ name = "current-version").
Proof.
  exact (new_major_version_is_taken_before_the_suffix
           (Sample.repository Sample.one_malformed_commit)
           Sample.cc_parser Sample.context_sha 5
           "owner/repo" "token" "refs/heads/develop" "warn" "1.0.0" "-"
           (events (Sample.body Sample.one_malformed_commit
                      "refs/heads/develop" "warn"))
           eq_refl).
Defined.

(** C3, on the code.  The latest release is [v1.0.0], the only commit since
    is ['Add some new features'], the policy is [error] and the target is the
    default branch.  The classifier signals the failure and returns no bump
    type; [main] takes the missing bump type for PATCH and goes on to set
    [new-version] to [1.0.1]. *)
Theorem main_sets_new_version_after_classification_abort :
  Sample.run Sample.one_malformed_commit "refs/heads/main" "error" =
    ([Info "Latest release tag: v1.0.0";
      SetOutput "latest-release-tag" "v1.0.0";
      Debug "Getting list of commits between v1.0.0 and refs/heads/main.";
      Debug "Getting list of commits between v1.0.0 and refs/heads/main";
      Debug "Fetching commits page 0";
      Debug "Fetched 1 commits";
      Debug "Total commits to fetch: 1";
      Debug "Found commit: abc123 with message: Add some new features";
      Debug "Total commits fetched: 1";
      Info "Found 1 commits since the latest release.";
      ParserCall "Add some new features";
      SetFailed "Commit message not in conventional-commits format: 'Add some new features'";
      Info "No conventional commits found. Bumping patch version.";
      Info "Bump type: patch";
      Info "Current version: 1.0.0";
      SetOutput "current-version" "1.0.0";
      Info "New version: 1.0.1";
      SetOutput "new-version" "1.0.1";
      Info "New major version: 1";
      SetOutput "new-major-version" "1"],
     Done tt).
Proof. vm_compute. reflexivity. Qed.

(** The expectation of main.spec.ts for a release without new commits. *)
Example main_without_new_commits :
  Sample.run Sample.no_commits "refs/heads/main" "warn" =
    ([Info "Latest release tag: v1.0.0";
      SetOutput "latest-release-tag" "v1.0.0";
      Debug "Getting list of commits between v1.0.0 and refs/heads/main.";
      Debug "Getting list of commits between v1.0.0 and refs/heads/main";
      Debug "Fetching commits page 0";
      Debug "Fetched 0 commits";
      Debug "Total commits to fetch: 0";
      Debug "Total commits fetched: 0";
      Info "No new commits found since the latest release.";
      Info "No conventional commits found. Bumping patch version.";
      Info "Bump type: patch";
      Info "Current version: 1.0.0";
      SetOutput "current-version" "1.0.0";
      Info "New version: 1.0.1";
      SetOutput "new-version" "1.0.1";
      Info "New major version: 1";
      SetOutput "new-major-version" "1"],
     Done tt).
Proof. vm_compute. reflexivity. Qed.

(** With an unknown target branch the client reports no commits, and the
    run bumps the patch version instead of failing. *)
Example main_with_unknown_target_branch :
  Sample.run Sample.unknown_range "refs/heads/no-such-branch" "warn" =
    ([Info "Latest release tag: v1.0.0";
      SetOutput "latest-release-tag" "v1.0.0";
      Debug "Getting list of commits between v1.0.0 and refs/heads/no-such-branch.";
      Debug "Getting list of commits between v1.0.0 and refs/heads/no-such-branch";
      Debug "Fetching commits page 0";
      Debug "Error fetching commits: Not Found";
      Debug "Total commits fetched: 0";
      Info "No new commits found since the latest release.";
      Info "No conventional commits found. Bumping patch version.";
      Info "Bump type: patch";
      Info "Current version: 1.0.0";
      SetOutput "current-version" "1.0.0";
      Info "Target branch (refs/heads/no-such-branch) is not the default branch (refs/heads/main). Suffixing version with pre-release identifier.";
      Info "New version: 1.0.1-abcdef1";
      SetOutput "new-version" "1.0.1-abcdef1";
      Info "New major version: 1";
      SetOutput "new-major-version" "1"],
     Done tt).
Proof. vm_compute. reflexivity. Qed.

(* ===================================================================== *)
(** * Further properties of the sources *)
(* ===================================================================== *)

(** ** logic.ts: the classifier *)

Lemma existsb_Permutation {A} (f : A -> bool) (l l' : list A) :
  Permutation l l' -> existsb f l = existsb f l'.
Proof.
  induction 1 as [| x l l' _ IH | x y l | l l' l'' _ IH1 _ IH2]; cbn.
  - reflexivity.
  - now rewrite IH.
  - now destruct (f x), (f y).
  - now rewrite IH1.
Qed.

Lemma aborts_app cc_parser reaction (l l' : list Commit) :
  aborts cc_parser reaction (l ++ l') =
    aborts cc_parser reaction l || aborts cc_parser reaction l'.
Proof. destruct reaction; cbn [aborts]; [apply existsb_app | |]; reflexivity. Qed.

(** X1. The value returned for a sequence of commits does not depend on the
    order of the commits, under any policy: only the diagnostics do. *)
Theorem classification_is_order_independent
    (cc_parser : string -> option ConventionalCommit)
    (commits commits' : list Commit)
    (reaction : NotConventionalCommitsReaction) :
  Permutation commits commits' ->
  outcome (getBumpTypeFromCommits cc_parser commits reaction)
    = outcome (getBumpTypeFromCommits cc_parser commits' reaction).
Proof.
  intros Hp. unfold getBumpTypeFromCommits. rewrite !for_commits_outcome.
  cbn [orb].
  rewrite (existsb_Permutation (breaking_commit cc_parser) _ _ Hp).
  rewrite (existsb_Permutation (feature_commit cc_parser) _ _ Hp).
  replace (aborts cc_parser reaction commits')
    with (aborts cc_parser reaction commits); [reflexivity |].
  destruct reaction; cbn [aborts]; [| reflexivity | reflexivity].
  apply existsb_Permutation, Hp.
Qed.

Lemma classification_is_order_independent_witness :
  outcome (getBumpTypeFromCommits Sample.cc_parser
             [mkCommit "a1" "fix: update user model";
              mkCommit "b2" "feat!: remove deprecated API endpoints"] ERROR)
    = outcome (getBumpTypeFromCommits Sample.cc_parser
                 [mkCommit "b2" "feat!: remove deprecated API endpoints";
                  mkCommit "a1" "fix: update user model"] ERROR).
Proof.
  apply (classification_is_order_independent Sample.cc_parser
           [mkCommit "a1" "fix: update user model";
            mkCommit "b2" "feat!: remove deprecated API endpoints"]
           [mkCommit "b2" "feat!: remove deprecated API endpoints";
            mkCommit "a1" "fix: update user model"] ERROR).
  apply perm_swap.
Defined.

(** X2. When two sequences are each classified without abort, their
    concatenation is classified without abort too, as the larger of the two
    bump types. *)
Theorem classification_of_concatenation
    (cc_parser : string -> option ConventionalCommit)
    (commits commits' : list Commit)
    (reaction : NotConventionalCommitsReaction) (r r' : ReleaseType) :
  outcome (getBumpTypeFromCommits cc_parser commits reaction)
    = Done (Some r) ->
  outcome (getBumpTypeFromCommits cc_parser commits' reaction)
    = Done (Some r') ->
  outcome (getBumpTypeFromCommits cc_parser (commits ++ commits') reaction)
    = Done (Some (ReleaseType_max r r')).
Proof.
  unfold getBumpTypeFromCommits. rewrite !for_commits_outcome.
  rewrite aborts_app, !existsb_app. cbn [orb].
  destruct (aborts cc_parser reaction commits); [discriminate |].
  destruct (aborts cc_parser reaction commits'); [discriminate |].
  cbn [orb]. intros H H'. injection H as <-. injection H' as <-.
  destruct (existsb (breaking_commit cc_parser) commits),
    (existsb (feature_commit cc_parser) commits),
    (existsb (breaking_commit cc_parser) commits'),
    (existsb (feature_commit cc_parser) commits'); reflexivity.
Qed.

Lemma classification_of_concatenation_witness :
  outcome (getBumpTypeFromCommits Sample.cc_parser
             ([mkCommit "a1" "feat: add new user authentication"]
              ++ [mkCommit "b2" "fix: update user model"]) ERROR)
    = Done (Some (ReleaseType_max minor patch)).
Proof.
  exact (classification_of_concatenation Sample.cc_parser
           [mkCommit "a1" "feat: add new user authentication"]
           [mkCommit "b2" "fix: update user model"] ERROR minor patch
           eq_refl eq_refl).
Defined.

(** X3. On a sequence without malformed commits the policy plays no part:
    under each policy the classifier logs one event per commit, the note
    for an ignored one and the parser call for another, and returns the
    bump the commits call for. *)
Theorem policy_is_irrelevant_without_malformed
    (cc_parser : string -> option ConventionalCommit)
    (commits : list Commit) (reaction : NotConventionalCommitsReaction) :
  existsb (malformed cc_parser) commits = false ->
  getBumpTypeFromCommits cc_parser commits reaction =
    (map visit commits, Done (Some (bump_of cc_parser commits))).
Proof.
  intros Hm. rewrite (action_eta (getBumpTypeFromCommits _ _ _)). f_equal.
  - unfold getBumpTypeFromCommits. rewrite <- (app_nil_r commits) at 1.
    rewrite for_commits_events_app by assumption.
    cbn [for_commits ret events fst]. apply app_nil_r.
  - unfold getBumpTypeFromCommits. rewrite for_commits_outcome.
    replace (aborts cc_parser reaction commits) with false
      by (destruct reaction; cbn [aborts]; now rewrite ?Hm).
    reflexivity.
Qed.

Lemma policy_is_irrelevant_without_malformed_witness :
  getBumpTypeFromCommits Sample.cc_parser
    [mkCommit "a1" "feat: add new user authentication";
     mkCommit "b2" "Merge branch feature into main"] ERROR =
    ([ParserCall "feat: add new user authentication";
      Debug "Ignoring commit message: 'Merge branch feature into main'"],
     Done (Some minor)).
Proof.
  exact (policy_is_irrelevant_without_malformed Sample.cc_parser
           [mkCommit "a1" "feat: add new user authentication";
            mkCommit "b2" "Merge branch feature into main"] ERROR eq_refl).
Defined.

Section Diagnostics.

Variable cc_parser : string -> option ConventionalCommit.

Local Notation "'report' c" := (not_conventional (message c))
  (at level 10).

Lemma diagnostics_of_for_commits reaction commits bM bm :
  let evs := events (for_commits cc_parser reaction commits bM bm) in
  let reports :=
    map (fun c => report c) (filter (malformed cc_parser) commits) in
  warnings evs = match reaction with WARN => reports | _ => [] end
  /\ failures evs =
     match reaction with ERROR => firstn 1 reports | _ => [] end.
Proof.
  revert bM bm. induction commits as [| c rest IH]; intros bM bm.
  - destruct reaction; split; reflexivity.
  - cbn zeta in *. cbn [filter].
    destruct (commit_cases cc_parser c) as [Hi | cm Hi Hp | Hi Hp].
    + destruct (kinds_ignored cc_parser c Hi) as (-> & _).
      rewrite for_commits_ignored by assumption. apply IH.
    + destruct (kinds_parsed cc_parser c cm Hi Hp) as (-> & _).
      rewrite (for_commits_parsed _ _ c cm) by assumption. apply IH.
    + destruct (kinds_malformed cc_parser c Hi Hp) as (-> & _).
      rewrite for_commits_malformed by assumption.
      destruct (IH bM bm) as [Hw Hf].
      destruct reaction; cbn [events fst warnings failures map firstn];
        rewrite ?Hw, ?Hf; split; reflexivity.
Qed.

End Diagnostics.

(** X4. The diagnostics of a classification: under WARN one warning per
    malformed commit, in order, and no failure; under IGNORE neither; under
    ERROR no warning and one failure, for the first malformed commit, if
    there is one. *)
Theorem diagnostics_of_classification
    (cc_parser : string -> option ConventionalCommit)
    (commits : list Commit) (reaction : NotConventionalCommitsReaction) :
  let evs := events (getBumpTypeFromCommits cc_parser commits reaction) in
  let reports :=
    map (fun c => "Commit message not in conventional-commits format: '"
                  ++ message c ++ "'")
      (filter (malformed cc_parser) commits) in
  warnings evs = match reaction with WARN => reports | _ => [] end
  /\ failures evs =
     match reaction with ERROR => firstn 1 reports | _ => [] end.
Proof. apply diagnostics_of_for_commits. Qed.

(** X5. A classification that is not aborted calls the parser exactly once
    for each commit outside the ignore pattern, in the order of the
    commits. *)
Theorem parser_is_called_once_per_kept_commit
    (cc_parser : string -> option ConventionalCommit)
    (commits : list Commit) (reaction : NotConventionalCommitsReaction) :
  aborts cc_parser reaction commits = false ->
  parser_calls (events (getBumpTypeFromCommits cc_parser commits reaction))
    = map message
        (filter (fun c => negb (IGNORE_MESSAGE_PATTERN_test (message c)))
           commits).
Proof.
  unfold getBumpTypeFromCommits. intros Ha.
  enough (H : forall bM bm,
    parser_calls (events (for_commits cc_parser reaction commits bM bm))
      = map message
          (filter (fun c => negb (IGNORE_MESSAGE_PATTERN_test (message c)))
             commits)) by apply H.
  revert Ha.
  induction commits as [| c rest IH]; intros Ha bM bm; [reflexivity |].
  cbn [filter]. fold (ignored c).
  assert (Hrest : aborts cc_parser reaction rest = false).
  { destruct reaction; try reflexivity. cbn [aborts existsb] in *.
    now apply orb_false_iff in Ha. }
  destruct (commit_cases cc_parser c) as [Hi | cm Hi Hp | Hi Hp];
    rewrite Hi; cbn [negb map].
  - rewrite for_commits_ignored by assumption. cbn [events fst parser_calls].
    now apply IH.
  - rewrite (for_commits_parsed _ _ c cm) by assumption. cbn zeta.
    cbn [events fst parser_calls]. f_equal. now apply IH.
  - rewrite for_commits_malformed by assumption.
    destruct (kinds_malformed cc_parser c Hi Hp) as (Hm & _).
    destruct reaction; cbn [events fst parser_calls].
    + cbn [aborts existsb] in Ha. now rewrite Hm in Ha.
    + f_equal. now apply IH.
    + f_equal. now apply IH.
Qed.

Lemma parser_is_called_once_per_kept_commit_witness :
  parser_calls
    (events (getBumpTypeFromCommits Sample.cc_parser
               [mkCommit "a1" "Add some new features";
                mkCommit "b2" "Merge branch feature into main";
                mkCommit "c3" "fix: update user model"] WARN))
    = ["Add some new features"; "fix: update user model"].
Proof.
  exact (parser_is_called_once_per_kept_commit Sample.cc_parser
           [mkCommit "a1" "Add some new features";
            mkCommit "b2" "Merge branch feature into main";
            mkCommit "c3" "fix: update user model"] WARN eq_refl).
Defined.

(** ** types.ts: the policy names *)

(** X6. A string is accepted as the name of a policy exactly when its lower
    case is the string value of that member of the enum; nothing is logged. *)
Theorem policy_name_is_matched_in_lower_case
    (value : string) (r : NotConventionalCommitsReaction) :
  getNotConventionalCommitsReactionEnumFromString value = ([], Done r)
  <-> JS.toLowerCase value = NotConventionalCommitsReaction_value r.
Proof.
  unfold getNotConventionalCommitsReactionEnumFromString, JS.strict_eq.
  cbn zeta.
  destruct (String.eqb_spec (JS.toLowerCase value) "error") as [E | E];
    [rewrite E; destruct r; split; (discriminate || reflexivity) |].
  destruct (String.eqb_spec (JS.toLowerCase value) "warn") as [E' | E'];
    [rewrite E'; destruct r; split; (discriminate || reflexivity) |].
  destruct (String.eqb_spec (JS.toLowerCase value) "ignore") as [E'' | E''];
    [rewrite E''; destruct r; split; (discriminate || reflexivity) |].
  split; [discriminate |]. destruct r; cbn; intros H; congruence.
Qed.

(** X7. A string whose lower case is none of [error], [warn] and [ignore]
    is rejected with an error that quotes the string as it was given. *)
Theorem unknown_policy_name_is_rejected (value : string) :
  (forall r, JS.toLowerCase value <> NotConventionalCommitsReaction_value r) ->
  getNotConventionalCommitsReactionEnumFromString value =
    ([], Threw (mkError None
                  ("Invalid NotConventionalCommitsReaction value: " ++ value))).
Proof.
  intros H.
  unfold getNotConventionalCommitsReactionEnumFromString, JS.strict_eq.
  cbn zeta.
  destruct (String.eqb_spec (JS.toLowerCase value) "error") as [E | _];
    [now apply (H ERROR) in E |].
  destruct (String.eqb_spec (JS.toLowerCase value) "warn") as [E | _];
    [now apply (H WARN) in E |].
  destruct (String.eqb_spec (JS.toLowerCase value) "ignore") as [E | _];
    [now apply (H IGNORE) in E |].
  reflexivity.
Qed.

(** The README names the third policy [silent]; the code does not know it. *)
Lemma unknown_policy_name_is_rejected_witness :
  getNotConventionalCommitsReactionEnumFromString "Silent" =
    ([], Threw (mkError None
                  "Invalid NotConventionalCommitsReaction value: Silent")).
Proof.
  apply (unknown_policy_name_is_rejected "Silent").
  intros r. destruct r; discriminate.
Defined.

Lemma policy_name_is_matched_in_lower_case_witness :
  getNotConventionalCommitsReactionEnumFromString "Warn" = ([], Done WARN).
Proof.
  apply (proj2 (policy_name_is_matched_in_lower_case "Warn" WARN)).
  reflexivity.
Defined.

(** ** github/GitHubClient.ts *)

Lemma outcome_bind {A B} (m : Action A) (k : A -> Action B) :
  outcome (bind m k) =
    match outcome m with
    | Done a => outcome (k a)
    | Return_ => Return_
    | Threw e => Threw e
    | OutOfFuel => OutOfFuel
    end.
Proof.
  destruct m as [ev [a | | e |]]; cbn; try reflexivity.
  now destruct (k a).
Qed.

Lemma outcome_try_catch {A} (m : Action A) (h : Error -> Action A) :
  outcome (try_catch m h) =
    match outcome m with
    | Threw e => outcome (h e)
    | o => o
    end.
Proof.
  destruct m as [ev [a | | e |]]; cbn; try reflexivity.
  now destruct (h e).
Qed.

Lemma events_bind {A B} (m : Action A) (k : A -> Action B) :
  events (bind m k) =
    (events m ++ match outcome m with
                 | Done a => events (k a)
                 | _ => []
                 end)%list.
Proof.
  destruct m as [ev [a | | e |]]; cbn; try (now rewrite app_nil_r).
  now destruct (k a).
Qed.

Lemma outcome_push_commits cs listOfCommits :
  outcome (push_commits cs listOfCommits)
    = Done (listOfCommits ++ map to_Commit cs)%list.
Proof.
  revert listOfCommits. induction cs as [| c cs IH]; intros l;
    cbn [push_commits map].
  - cbn. now rewrite app_nil_r.
  - rewrite outcome_bind. cbn [core.debug emit outcome snd].
    rewrite IH, <- app_assoc. reflexivity.
Qed.

Section Pagination.

Variable this : GitHubClient.
Variables rangeBegin rangeEnd : string.

Local Notation "'compare_page' page" :=
  (repos_compareCommitsWithBasehead (octokit this) (repoOwner this)
     (repoName this) (rangeBegin ++ "..." ++ rangeEnd) page 100)
  (at level 10).

Local Notation "'pages_from' fuel l total page" :=
  (fetch_pages fuel this rangeBegin rangeEnd 100 l total page)
  (at level 10, fuel at level 9, l at level 9, total at level 9,
   page at level 9).

(** The loop never reads the value [total_commits] had on entry. *)
Lemma fetch_pages_total fuel l total total' page :
  pages_from fuel l total page = pages_from fuel l total' page.
Proof. destruct fuel; reflexivity. Qed.

(** One iteration on a page that the API delivers. *)
Lemma fetch_pages_Ok fuel l total page data :
  compare_page page = Ok data ->
  outcome (pages_from (S fuel) l total page) =
    let l' := (l ++ map to_Commit (commits data))%list in
    if (length_Z l' >=? total_commits data)%Z then Done l'
    else outcome (pages_from fuel l' (total_commits data) (page + 1)%Z).
Proof.
  intros Hpage. cbn [fetch_pages]. rewrite outcome_bind, outcome_try_catch.
  rewrite outcome_bind. cbn [core.debug emit outcome snd].
  rewrite outcome_bind, Hpage. cbn [lift ret outcome snd].
  rewrite outcome_bind. cbn [core.debug emit outcome snd].
  rewrite outcome_bind. cbn [core.debug emit outcome snd].
  rewrite outcome_bind, outcome_push_commits. cbn [ret outcome snd].
  cbn zeta.
  destruct (length_Z (l ++ map to_Commit (commits data)) >=?
            total_commits data)%Z; [| reflexivity].
  rewrite outcome_bind. reflexivity.
Qed.


Variable d : nat -> CompareData.

Local Notation "'short' k" := (short_pages this rangeBegin rangeEnd d k)
  (at level 10).

(** Through [k] short pages the loop reaches page [k] with the commits of
    those pages. *)
Lemma fetch_pages_short k fuel total :
  short k ->
  outcome (pages_from (k + fuel) [] total 0%Z) =
    outcome (pages_from fuel (first_pages d k) total (Z.of_nat k)).
Proof.
  revert fuel. induction k as [| k IH]; intros fuel Hk; [reflexivity |].
  replace (S k + fuel) with (k + S fuel) by lia.
  rewrite IH by (intros i Hi; apply Hk; lia).
  destruct (Hk k (Nat.lt_succ_diag_r k)) as [Hpage Hlen].
  rewrite (fetch_pages_Ok _ _ _ _ _ Hpage). cbn zeta.
  change (first_pages d k ++ map to_Commit (commits (d k)))%list
    with (first_pages d (S k)).
  destruct (Z.geb_spec (length_Z (first_pages d (S k)))
              (total_commits (d k))) as [Hge | _]; [lia |].
  rewrite Nat2Z.inj_succ, <- Z.add_1_r. f_equal. apply fetch_pages_total.
Qed.

Lemma outcome_getListOfCommitsBetween fuel :
  outcome (getListOfCommitsBetween fuel this rangeBegin rangeEnd)
    = outcome (pages_from fuel [] (-1)%Z 0%Z).
Proof.
  unfold getListOfCommitsBetween. rewrite outcome_bind. reflexivity.
Qed.

(** X8. Pagination.  When the first [n] pages each leave the list short of
    the total they report and page [n] completes it, the client returns the
    commits of pages [0] to [n], in page order and as delivered, whatever
    step bound above [n] it is given. *)
Theorem getListOfCommitsBetween_concatenates_pages n fuel :
  short n ->
  compare_page (Z.of_nat n) = Ok (d n) ->
  (length_Z (first_pages d (S n)) >= total_commits (d n))%Z ->
  n < fuel ->
  outcome (getListOfCommitsBetween fuel this rangeBegin rangeEnd)
    = Done (first_pages d (S n)).
Proof.
  intros Hshort Hpage Hlen Hfuel.
  replace fuel with (n + S (fuel - S n)) by lia.
  rewrite outcome_getListOfCommitsBetween, fetch_pages_short by assumption.
  rewrite (fetch_pages_Ok _ _ _ _ _ Hpage). cbn zeta.
  change (first_pages d n ++ map to_Commit (commits (d n)))%list
    with (first_pages d (S n)).
  destruct (Z.geb_spec (length_Z (first_pages d (S n)))
              (total_commits (d n))); [reflexivity | lia].
Qed.


(** X10. When every page leaves the list short of the total it reports,
    the loop does not end: no step bound is enough. *)
Theorem getListOfCommitsBetween_does_not_end fuel :
  (forall k, short k) ->
  outcome (getListOfCommitsBetween fuel this rangeBegin rangeEnd)
    = OutOfFuel.
Proof.
  intros Hshort.
  rewrite outcome_getListOfCommitsBetween.
  replace fuel with (fuel + 0) by lia.
  rewrite fetch_pages_short by apply Hshort. reflexivity.
Qed.

End Pagination.

(** X11. Whatever the API answers and however the call ends, the client
    logs debug messages only. *)
Theorem getListOfCommitsBetween_only_logs_debug
    (fuel : nat) (this : GitHubClient) (rangeBegin rangeEnd : string) :
  only is_debug
    (events (getListOfCommitsBetween fuel this rangeBegin rangeEnd)).
Proof. apply only_getListOfCommitsBetween. reflexivity. Qed.

Lemma getListOfCommitsBetween_concatenates_pages_witness :
  outcome (getListOfCommitsBetween 2 (Sample.client Sample.two_pages)
             "v1.0.0" "refs/heads/main")
    = Done [mkCommit "abc123" "feat: add new user authentication";
            mkCommit "def456" "fix: update user model"].
Proof.
  apply (getListOfCommitsBetween_concatenates_pages
           (Sample.client Sample.two_pages) "v1.0.0" "refs/heads/main"
           Sample.page_of 1 2).
  - intros i Hi. assert (i = 0) as -> by lia. split; [reflexivity |].
    vm_compute. reflexivity.
  - reflexivity.
  - vm_compute. discriminate.
  - lia.
Defined.


Lemma first_pages_empty (k : nat) : first_pages Sample.empty_page k = [].
Proof. induction k as [| k IH]; [reflexivity |]. cbn. now rewrite IH. Qed.

Lemma getListOfCommitsBetween_does_not_end_witness :
  outcome (getListOfCommitsBetween 1000 (Sample.client Sample.empty_pages)
             "v1.0.0" "refs/heads/main")
    = OutOfFuel.
Proof.
  apply (getListOfCommitsBetween_does_not_end
           (Sample.client Sample.empty_pages) "v1.0.0" "refs/heads/main"
           Sample.empty_page 1000).
  intros k i Hi. split.
  - cbn. unfold Sample.empty_pages. now rewrite Nat2Z.id.
  - rewrite first_pages_empty. reflexivity.
Defined.

(** ** main.ts: the paths of a run *)

Lemma reaction_of_lower_case value r :
  JS.toLowerCase value = NotConventionalCommitsReaction_value r ->
  getNotConventionalCommitsReactionEnumFromString value = ([], Done r).
Proof.
  intros H. unfold getNotConventionalCommitsReactionEnumFromString.
  cbn zeta. rewrite H. now destruct r.
Qed.

Lemma bind_Done_l {A B} ev (a : A) (k : A -> Action B) :
  bind (ev, Done a) k = ((ev ++ events (k a))%list, outcome (k a)).
Proof. unfold bind, events, outcome. now destruct (k a). Qed.

Lemma events_getLatestReleaseTag this : events (getLatestReleaseTag this) = [].
Proof.
  unfold getLatestReleaseTag.
  destruct (repos_getLatestRelease _ _ _) as [tag | e]; [reflexivity |].
  cbn. now destruct (status_is_404 e).
Qed.

Lemma truthy_Some (s : string) : s <> "" -> JS.truthy (Some s) = true.
Proof. intros H. cbn. now apply negb_true_iff, String.eqb_neq. Qed.

Lemma outputs_app evs evs' :
  outputs (evs ++ evs') = (outputs evs ++ outputs evs')%list.
Proof.
  induction evs as [| e evs IH]; [reflexivity |].
  destruct e; cbn [app outputs]; now rewrite IH.
Qed.

Lemma failures_app evs evs' :
  failures (evs ++ evs') = (failures evs ++ failures evs')%list.
Proof.
  induction evs as [| e evs IH]; [reflexivity |].
  destruct e; cbn [app failures]; now rewrite IH.
Qed.

Lemma outputs_no_output evs : only no_output evs -> outputs evs = [].
Proof.
  induction 1 as [| e evs He _ IH]; [reflexivity |].
  destruct e; cbn [outputs]; (discriminate || exact IH).
Qed.

Lemma failures_debug evs : only is_debug evs -> failures evs = [].
Proof.
  induction 1 as [| e evs He _ IH]; [reflexivity |].
  destruct e; cbn [failures]; (discriminate || exact IH).
Qed.

Section MainPaths.

Context (getOctokit : string -> Octokit).
Context {semver_lib : semver.Lib}.
Context (cc_parser : string -> option ConventionalCommit).
Context (context_sha : string).
Context (fuel : nat).
Context (fullRepoName githubToken targetBranch notConventionalCommitsReaction
         initReleaseVersion preReleaseVersionGlue : string).

Local Notation "'client'" :=
  (new_GitHubClient getOctokit githubToken [fullRepoName]).
Local Notation "'run'" :=
  (main getOctokit cc_parser context_sha fuel fullRepoName githubToken
     targetBranch notConventionalCommitsReaction initReleaseVersion
     preReleaseVersionGlue).

(** The start of [main], up to the release tag. *)
Ltac start_main Hr Hl :=
  unfold main, main_body;
  rewrite (reaction_of_lower_case _ _ Hr), bind_Done_l;
  rewrite (action_eta (getLatestReleaseTag _)), events_getLatestReleaseTag, Hl;
  rewrite bind_Done_l.

(** X13. With a policy name that is not known, [main] throws the error of
    the conversion before anything else: nothing is logged and no output is
    set. *)
Theorem main_rejects_unknown_policy :
  (forall r, JS.toLowerCase notConventionalCommitsReaction
             <> NotConventionalCommitsReaction_value r) ->
  run = ([], Threw (mkError None
                      ("Invalid NotConventionalCommitsReaction value: "
                       ++ notConventionalCommitsReaction))).
Proof.
  intros H. unfold main, main_body.
  unfold getNotConventionalCommitsReactionEnumFromString, JS.strict_eq.
  cbn zeta.
  destruct (String.eqb_spec (JS.toLowerCase notConventionalCommitsReaction)
              "error") as [E | _]; [now apply (H ERROR) in E |].
  destruct (String.eqb_spec (JS.toLowerCase notConventionalCommitsReaction)
              "warn") as [E | _]; [now apply (H WARN) in E |].
  destruct (String.eqb_spec (JS.toLowerCase notConventionalCommitsReaction)
              "ignore") as [E | _]; [now apply (H IGNORE) in E |].
  reflexivity.
Qed.


(** X15. When the latest release tag is not valid semver, the run sets
    [latest-release-tag], signals the failure naming the tag, and ends: the
    commits are not fetched and no version is set. *)
Theorem main_with_invalid_release_tag reaction tag :
  JS.toLowerCase notConventionalCommitsReaction
    = NotConventionalCommitsReaction_value reaction ->
  outcome (getLatestReleaseTag client) = Done (Some tag) ->
  tag <> "" ->
  JS.truthy (semver.valid tag) = false ->
  run =
    ([Info ("Latest release tag: " ++ tag);
      SetOutput "latest-release-tag" tag;
      SetFailed ("Latest release tag (" ++ tag
        ++ ") is not a valid semver version. Please ensure your latest release tag follows semver format.")],
     Done tt).
Proof.
  intros Hr Hl Ht Hv. start_main Hr Hl.
  rewrite (truthy_Some tag Ht). cbn [JS.nullish]. rewrite Hv. cbn [negb].
  reflexivity.
Qed.

(** X16. Without a release (none found, or an empty tag) and with an
    initial version that is not valid semver, the run sets
    [latest-release-tag] to the empty string, signals the failure naming the
    initial version, and ends. *)
Theorem main_without_release_and_invalid_seed reaction latest :
  JS.toLowerCase notConventionalCommitsReaction
    = NotConventionalCommitsReaction_value reaction ->
  outcome (getLatestReleaseTag client) = Done latest ->
  JS.truthy latest = false ->
  JS.truthy (semver.valid initReleaseVersion) = false ->
  run =
    ([Info "Latest release tag: ";
      SetOutput "latest-release-tag" "";
      SetFailed
        ("No valid latest release tag found and the provided initial version ("
         ++ initReleaseVersion ++ ") is not a valid semver version.")],
     Done tt).
Proof.
  intros Hr Hl Ht Hv. start_main Hr Hl. rewrite Ht, Hv. cbn [negb].
  assert (JS.nullish latest "" = "") as ->.
  { destruct latest as [s |]; [| reflexivity]. cbn in Ht.
    apply negb_false_iff, String.eqb_eq in Ht. now subst. }
  reflexivity.
Qed.

Ltac eval_action :=
  cbn [bind emit ret return_ throw lift try_catch call events outcome
       fst snd core.info core.debug core.setOutput core.setFailed
       core.warning app JS.nullish negb].

Lemma call_Done evs (body : Action unit) :
  body = (evs, Done tt) -> call body = (evs, Done tt).
Proof. now intros ->. Qed.

Lemma nullish_falsy latest : JS.truthy latest = false -> JS.nullish latest "" = "".
Proof.
  destruct latest as [s |]; [| reflexivity]. cbn. intros Ht.
  apply negb_false_iff, String.eqb_eq in Ht. now subst.
Qed.

(** X17. Without a release and with a valid initial version, the run sets
    the current version to the empty string and publishes the validated
    initial version, suffixed off the default branch, with its major; no
    commit is fetched or parsed and no failure is signalled. *)
Theorem main_without_release reaction latest newVersion newMajorVersion
    defaultBranch :
  JS.toLowerCase notConventionalCommitsReaction
    = NotConventionalCommitsReaction_value reaction ->
  outcome (getLatestReleaseTag client) = Done latest ->
  JS.truthy latest = false ->
  semver.valid initReleaseVersion = Some newVersion ->
  newVersion <> "" ->
  semver.major newVersion = Ok newMajorVersion ->
  repos_get (octokit client) (repoOwner client) (repoName client)
    = Ok defaultBranch ->
  outcome run = Done tt
  /\ outputs (events run) =
       [("latest-release-tag", "");
        ("current-version", "");
        ("new-version",
         published context_sha targetBranch defaultBranch newVersion
           preReleaseVersionGlue);
        ("new-major-version", JS.Number_toString newMajorVersion)]
  /\ failures (events run) = []
  /\ parser_calls (events run) = [].
Proof.
  intros Hr Hl Ht Hv Hne Hm Hd.
  enough (H : exists evs, run = (evs, Done tt)
    /\ outputs evs =
       [("latest-release-tag", "");
        ("current-version", "");
        ("new-version",
         published context_sha targetBranch defaultBranch newVersion
           preReleaseVersionGlue);
        ("new-major-version", JS.Number_toString newMajorVersion)]
    /\ failures evs = [] /\ parser_calls evs = []).
  { destruct H as (evs & -> & H). exact (conj eq_refl H). }
  unfold published.
  destruct (JS.strict_eq targetBranch ("refs/heads/" ++ defaultBranch))
    eqn:Hb;
    (eexists; split;
     [ apply call_Done; unfold main_body;
       rewrite (reaction_of_lower_case _ _ Hr);
       rewrite (action_eta (getLatestReleaseTag _)),
         events_getLatestReleaseTag, Hl;
       eval_action;
       rewrite Ht, Hv, (truthy_Some _ Hne), (nullish_falsy _ Ht);
       eval_action; rewrite Hm; eval_action;
       unfold getDefaultBranchName; rewrite Hd; eval_action;
       rewrite Hb; eval_action; reflexivity
     | repeat split ]).
Qed.

Lemma length_Z_cons {A} (a : A) (l : list A) :
  (length_Z (a :: l) =? 0)%Z = false.
Proof. reflexivity. Qed.

Lemma outcome_getBumpTypeFromCommits reaction commits :
  outcome (getBumpTypeFromCommits cc_parser commits reaction) =
    Done (if aborts cc_parser reaction commits then None
          else Some (bump_of cc_parser commits)).
Proof. unfold getBumpTypeFromCommits. now rewrite for_commits_outcome. Qed.

Lemma quiet_getBumpTypeFromCommits reaction commits :
  outputs (events (getBumpTypeFromCommits cc_parser commits reaction)) = [].
Proof. apply outputs_no_output, only_for_commits; reflexivity. Qed.

(** The start of a run with a valid release tag, up to the bump type. *)
Ltac release_path Hr Hl Ht Hv Hc Hcommits :=
  apply call_Done; unfold main_body;
  rewrite (reaction_of_lower_case _ _ Hr);
  rewrite (action_eta (getLatestReleaseTag _)),
    events_getLatestReleaseTag, Hl;
  eval_action;
  rewrite (truthy_Some _ Ht), Hv, (truthy_Some _ Hc), Hcommits;
  eval_action.

Ltac release_path_return Hr Hl Ht Hv Hc Hcommits :=
  unfold main_body;
  rewrite (reaction_of_lower_case _ _ Hr);
  rewrite (action_eta (getLatestReleaseTag _)),
    events_getLatestReleaseTag, Hl;
  eval_action;
  rewrite (truthy_Some _ Ht), Hv, (truthy_Some _ Hc), Hcommits;
  eval_action.

(** X18. When the client throws while fetching the commits, the run logs
    what the client logged, signals the failure naming the tag and the
    target branch, and ends with [latest-release-tag] as its only output. *)
Theorem main_range_lookup_failure reaction tag currentVersion evc error :
  JS.toLowerCase notConventionalCommitsReaction
    = NotConventionalCommitsReaction_value reaction ->
  outcome (getLatestReleaseTag client) = Done (Some tag) ->
  tag <> "" ->
  semver.valid tag = Some currentVersion ->
  currentVersion <> "" ->
  getListOfCommitsBetween fuel client tag targetBranch = (evc, Threw error) ->
  run =
    ([Info ("Latest release tag: " ++ tag);
      SetOutput "latest-release-tag" tag;
      Debug ("Getting list of commits between " ++ tag ++ " and "
             ++ targetBranch ++ ".")]
     ++ evc ++
     [SetFailed ("Failed to get the list of commits between " ++ tag
                 ++ " and " ++ targetBranch
                 ++ ". Please ensure the target branch exists.")],
     Done tt)%list.
Proof.
  intros Hr Hl Ht Hv Hc Hcommits. unfold main, main_body.
  rewrite (reaction_of_lower_case _ _ Hr).
  rewrite (action_eta (getLatestReleaseTag _)),
    events_getLatestReleaseTag, Hl.
  eval_action.
  rewrite (truthy_Some _ Ht), Hv, (truthy_Some _ Hc), Hcommits.
  eval_action. reflexivity.
Qed.

(** X19. With a valid release tag and the commits fetched, the run sets
    the four outputs: the tag, the validated current version, the version
    incremented by the bump of the commits (PATCH when there are none or the
    classification was aborted), suffixed off the default branch, and its
    major before the suffix.  The only failures signalled are the
    classifier's. *)
Theorem main_with_release reaction tag currentVersion evc commits
    newVersion newMajorVersion defaultBranch :
  JS.toLowerCase notConventionalCommitsReaction
    = NotConventionalCommitsReaction_value reaction ->
  outcome (getLatestReleaseTag client) = Done (Some tag) ->
  tag <> "" ->
  semver.valid tag = Some currentVersion ->
  currentVersion <> "" ->
  getListOfCommitsBetween fuel client tag targetBranch = (evc, Done commits) ->
  semver.inc currentVersion (effective_bump cc_parser reaction commits)
    = Some newVersion ->
  newVersion <> "" ->
  semver.major newVersion = Ok newMajorVersion ->
  repos_get (octokit client) (repoOwner client) (repoName client)
    = Ok defaultBranch ->
  outcome run = Done tt
  /\ outputs (events run) =
       [("latest-release-tag", tag);
        ("current-version", currentVersion);
        ("new-version",
         published context_sha targetBranch defaultBranch newVersion
           preReleaseVersionGlue);
        ("new-major-version", JS.Number_toString newMajorVersion)]
  /\ failures (events run)
     = failures (events (getBumpTypeFromCommits cc_parser commits reaction)).
Proof.
  intros Hr Hl Ht Hv Hc Hcommits Hinc Hn Hm Hd.
  enough (H : exists evs, run = (evs, Done tt)
    /\ outputs evs =
       [("latest-release-tag", tag);
        ("current-version", currentVersion);
        ("new-version",
         published context_sha targetBranch defaultBranch newVersion
           preReleaseVersionGlue);
        ("new-major-version", JS.Number_toString newMajorVersion)]
    /\ failures evs
       = failures (events (getBumpTypeFromCommits cc_parser commits
                             reaction))).
  { destruct H as (evs & -> & H). exact (conj eq_refl H). }
  assert (Hevc : only is_debug evc).
  { change evc with (events (evc, Done commits)). rewrite <- Hcommits.
    apply only_getListOfCommitsBetween. reflexivity. }
  assert (Hoc : outputs evc = []).
  { apply outputs_no_output. unfold only in *. rewrite Forall_forall in *.
    intros e He. apply Hevc in He. now destruct e. }
  pose proof (failures_debug _ Hevc) as Hfc.
  pose proof (outcome_getBumpTypeFromCommits reaction commits) as Hcls.
  pose proof (quiet_getBumpTypeFromCommits reaction commits) as Hq.
  unfold published, effective_bump in *.
  destruct commits as [| c cs];
    [ replace (aborts cc_parser reaction []) with false in *
        by (now destruct reaction);
      change (bump_of cc_parser []) with patch in *
    | destruct (aborts cc_parser reaction (c :: cs)) ];
    destruct (JS.strict_eq targetBranch ("refs/heads/" ++ defaultBranch))
      eqn:Hb.
  all: eexists; split;
    [ release_path Hr Hl Ht Hv Hc Hcommits;
      rewrite ?length_Z_cons; cbn [length_Z length Z.of_nat Z.eqb];
      eval_action;
      try rewrite (action_eta (getBumpTypeFromCommits _ _ _)), Hcls;
      eval_action;
      rewrite Hinc, (truthy_Some _ Hn); eval_action;
      rewrite Hm; eval_action;
      unfold getDefaultBranchName; rewrite Hd; eval_action;
      rewrite Hb; eval_action; reflexivity
    | repeat first
        [ progress cbn [outputs failures app]
        | rewrite outputs_app | rewrite failures_app
        | rewrite Hoc | rewrite Hfc | rewrite Hq | rewrite app_nil_r ];
      split; reflexivity ].
Qed.

(** X20. When [semver.inc] yields nothing for the current version and the
    bump, the run signals the increment failure after the classifier's own
    and ends with [latest-release-tag] as its only output. *)
Theorem main_increment_failure reaction tag currentVersion evc commits :
  JS.toLowerCase notConventionalCommitsReaction
    = NotConventionalCommitsReaction_value reaction ->
  outcome (getLatestReleaseTag client) = Done (Some tag) ->
  tag <> "" ->
  semver.valid tag = Some currentVersion ->
  currentVersion <> "" ->
  getListOfCommitsBetween fuel client tag targetBranch = (evc, Done commits) ->
  JS.truthy (semver.inc currentVersion
               (effective_bump cc_parser reaction commits)) = false ->
  outcome run = Done tt
  /\ outputs (events run) = [("latest-release-tag", tag)]
  /\ failures (events run) =
       (failures (events (getBumpTypeFromCommits cc_parser commits reaction))
        ++ ["Failed to increment version. Please check the current version and bump type."])%list.
Proof.
  intros Hr Hl Ht Hv Hc Hcommits Hinc.
  enough (H : exists evs, run = (evs, Done tt)
    /\ outputs evs = [("latest-release-tag", tag)]
    /\ failures evs =
       (failures (events (getBumpTypeFromCommits cc_parser commits reaction))
        ++ ["Failed to increment version. Please check the current version and bump type."])%list).
  { destruct H as (evs & -> & H). exact (conj eq_refl H). }
  assert (Hevc : only is_debug evc).
  { change evc with (events (evc, Done commits)). rewrite <- Hcommits.
    apply only_getListOfCommitsBetween. reflexivity. }
  assert (Hoc : outputs evc = []).
  { apply outputs_no_output. unfold only in *. rewrite Forall_forall in *.
    intros e He. apply Hevc in He. now destruct e. }
  pose proof (failures_debug _ Hevc) as Hfc.
  pose proof (outcome_getBumpTypeFromCommits reaction commits) as Hcls.
  pose proof (quiet_getBumpTypeFromCommits reaction commits) as Hq.
  unfold effective_bump in *.
  destruct commits as [| c cs];
    [ replace (aborts cc_parser reaction []) with false in *
        by (now destruct reaction);
      change (bump_of cc_parser []) with patch in *
    | destruct (aborts cc_parser reaction (c :: cs)) ].
  all: eexists; split;
    [ unfold main; release_path_return Hr Hl Ht Hv Hc Hcommits;
      rewrite ?length_Z_cons; cbn [length_Z length Z.of_nat Z.eqb];
      eval_action;
      try rewrite (action_eta (getBumpTypeFromCommits _ _ _)), Hcls;
      eval_action;
      rewrite Hinc; eval_action; reflexivity
    | repeat first
        [ progress cbn [outputs failures app]
        | rewrite outputs_app | rewrite failures_app
        | rewrite Hoc | rewrite Hfc | rewrite Hq | rewrite app_nil_r ];
      split; reflexivity ].
Qed.

Lemma outputs_events_bind {A B} (m : Action A) (k : A -> Action B) :
  outputs (events (bind m k)) =
    (outputs (events m) ++ match outcome m with
                           | Done a => outputs (events (k a))
                           | _ => []
                           end)%list.
Proof.
  rewrite events_bind, outputs_app. now destruct (outcome m).
Qed.

Ltac quiet_step :=
  rewrite outputs_events_bind;
  match goal with
  | |- context [(outputs (events ?v) ++ _)%list] =>
      rewrite (outputs_no_output (events v))
        by (unfold core.info, core.debug, core.setFailed,
              getNotConventionalCommitsReactionEnumFromString,
              getLatestReleaseTag, getDefaultBranchName,
              getBumpTypeFromCommits;
            cbn zeta; solve [only_block]);
      cbn [app];
      destruct (outcome v)
  end.

(** X21. In every run, however it ends, the outputs set are an initial
    part of [latest-release-tag], [current-version], [new-version],
    [new-major-version], in this order and each once; [new-version] is never
    set without [new-major-version]. *)
Theorem main_sets_outputs_in_order :
  In (map fst (outputs (events run)))
    [ [];
      ["latest-release-tag"];
      ["latest-release-tag"; "current-version"];
      ["latest-release-tag"; "current-version"; "new-version";
       "new-major-version"] ].
Proof.
  unfold main. rewrite events_call. unfold main_body. cbn zeta.
  quiet_step; [| now left ..].
  quiet_step; [| now left ..].
  rewrite outputs_events_bind. cbn [core.info emit events outcome fst snd outputs app].
  rewrite outputs_events_bind. cbn [core.setOutput emit events outcome fst snd outputs app].
  quiet_step; [| now (right; left) ..].
  destruct a1 as [currentVersion newVersion].
  rewrite outputs_events_bind. cbn [core.info emit events outcome fst snd outputs app].
  rewrite outputs_events_bind. cbn [core.setOutput emit events outcome fst snd outputs app].
  quiet_step; [| now (right; right; left) ..].
  quiet_step; [| now (right; right; left) ..].
  rewrite outputs_events_bind.
  destruct (negb (JS.strict_eq targetBranch ("refs/heads/" ++ a2)));
    cbn; now (right; right; right; left).
Qed.
End MainPaths.

Lemma main_rejects_unknown_policy_witness :
  Sample.run_on (Sample.repository Sample.no_commits)
    "refs/heads/main" "silent" "1.0.0"
  = ([], Threw (mkError None
                  "Invalid NotConventionalCommitsReaction value: silent")).
Proof.
  apply (main_rejects_unknown_policy (Sample.repository Sample.no_commits)
           Sample.cc_parser Sample.context_sha 5 "owner/repo" "token"
           "refs/heads/main" "silent" "1.0.0" "-").
  intros r. destruct r; discriminate.
Defined.


Lemma main_with_invalid_release_tag_witness :
  Sample.run_on (Sample.server (Ok "invalid-tag") Sample.no_commits)
    "refs/heads/main" "warn" "1.0.0"
  = ([Info "Latest release tag: invalid-tag";
      SetOutput "latest-release-tag" "invalid-tag";
      SetFailed "Latest release tag (invalid-tag) is not a valid semver version. Please ensure your latest release tag follows semver format."],
     Done tt).
Proof.
  apply (main_with_invalid_release_tag
           (Sample.server (Ok "invalid-tag") Sample.no_commits)
           Sample.cc_parser Sample.context_sha 5 "owner/repo" "token"
           "refs/heads/main" "warn" "1.0.0" "-" WARN "invalid-tag");
    (reflexivity || discriminate).
Defined.

Lemma main_without_release_and_invalid_seed_witness :
  Sample.run_on (Sample.server (Fail Sample.not_found) Sample.no_commits)
    "refs/heads/main" "warn" "invalid-version"
  = ([Info "Latest release tag: ";
      SetOutput "latest-release-tag" "";
      SetFailed "No valid latest release tag found and the provided initial version (invalid-version) is not a valid semver version."],
     Done tt).
Proof.
  exact (main_without_release_and_invalid_seed
           (Sample.server (Fail Sample.not_found) Sample.no_commits)
           Sample.cc_parser Sample.context_sha 5 "owner/repo" "token"
           "refs/heads/main" "warn" "invalid-version" "-" WARN None
           eq_refl eq_refl eq_refl eq_refl).
Defined.

Lemma main_without_release_witness :
  let run :=
    Sample.run_on (Sample.server (Fail Sample.not_found) Sample.no_commits)
      "refs/heads/develop" "warn" "1.0.0" in
  outcome run = Done tt
  /\ outputs (events run) =
       [("latest-release-tag", ""); ("current-version", "");
        ("new-version", "1.0.0-abcdef1"); ("new-major-version", "1")]
  /\ failures (events run) = []
  /\ parser_calls (events run) = [].
Proof.
  apply (main_without_release
           (Sample.server (Fail Sample.not_found) Sample.no_commits)
           Sample.cc_parser Sample.context_sha 5 "owner/repo" "token"
           "refs/heads/develop" "warn" "1.0.0" "-" WARN None "1.0.0" 1%Z
           "main");
    (reflexivity || discriminate).
Defined.

Lemma main_range_lookup_failure_witness :
  Sample.run_on (Sample.repository Sample.broken_range)
    "refs/heads/main" "warn" "1.0.0"
  = ([Info "Latest release tag: v1.0.0";
      SetOutput "latest-release-tag" "v1.0.0";
      Debug "Getting list of commits between v1.0.0 and refs/heads/main.";
      Debug "Getting list of commits between v1.0.0 and refs/heads/main";
      Debug "Fetching commits page 0";
      Debug "Error fetching commits: Server Error";
      SetFailed "Failed to get the list of commits between v1.0.0 and refs/heads/main. Please ensure the target branch exists."],
     Done tt).
Proof.
  apply (main_range_lookup_failure
           (Sample.repository Sample.broken_range)
           Sample.cc_parser Sample.context_sha 5 "owner/repo" "token"
           "refs/heads/main" "warn" "1.0.0" "-" WARN "v1.0.0" "1.0.0"
           [Debug "Getting list of commits between v1.0.0 and refs/heads/main";
            Debug "Fetching commits page 0";
            Debug "Error fetching commits: Server Error"]
           Sample.server_error);
    (reflexivity || discriminate).
Defined.

Lemma main_with_release_witness :
  let run :=
    Sample.run_on (Sample.repository Sample.two_pages)
      "refs/heads/main" "error" "1.0.0" in
  outcome run = Done tt
  /\ outputs (events run) =
       [("latest-release-tag", "v1.0.0"); ("current-version", "1.0.0");
        ("new-version", "1.1.0"); ("new-major-version", "1")]
  /\ failures (events run) = [].
Proof.
  apply (main_with_release
           (Sample.repository Sample.two_pages)
           Sample.cc_parser Sample.context_sha 5 "owner/repo" "token"
           "refs/heads/main" "error" "1.0.0" "-" ERROR "v1.0.0" "1.0.0"
           (events (getListOfCommitsBetween 5
                      (Sample.client Sample.two_pages)
                      "v1.0.0" "refs/heads/main"))
           [mkCommit "abc123" "feat: add new user authentication";
            mkCommit "def456" "fix: update user model"]
           "1.1.0" 1%Z "main");
    (reflexivity || discriminate).
Defined.

Lemma main_increment_failure_witness :
  let run :=
    main (semver_lib := Sample.frozen_semver)
      (Sample.repository Sample.no_commits) Sample.cc_parser
      Sample.context_sha 5 "owner/repo" "token" "refs/heads/main" "warn"
      "1.0.0" "-" in
  outcome run = Done tt
  /\ outputs (events run) = [("latest-release-tag", "v1.0.0")]
  /\ failures (events run) =
       ["Failed to increment version. Please check the current version and bump type."].
Proof.
  apply (main_increment_failure (semver_lib := Sample.frozen_semver)
           (Sample.repository Sample.no_commits)
           Sample.cc_parser Sample.context_sha 5 "owner/repo" "token"
           "refs/heads/main" "warn" "1.0.0" "-" WARN "v1.0.0" "1.0.0"
           (events (getListOfCommitsBetween 5
                      (Sample.client Sample.no_commits)
                      "v1.0.0" "refs/heads/main"))
           []);
    (reflexivity || discriminate).
Defined.

(** ** github/GitHubClient.ts: the constructor *)

Lemma split_without_sep sep s :
  has_char sep s = false -> JS.split sep s = [s].
Proof.
  induction s as [| a s IH]; [reflexivity |]. cbn [has_char JS.split].
  intros H. apply orb_false_iff in H as [Ha Hs]. rewrite Ha, (IH Hs).
  reflexivity.
Qed.

Lemma split_at_sep sep s rest :
  has_char sep s = false ->
  JS.split sep (s ++ String sep rest) = s :: JS.split sep rest.
Proof.
  induction s as [| a s IH]; intros H.
  - cbn. now rewrite Ascii.eqb_refl.
  - cbn [has_char] in H. apply orb_false_iff in H as [Ha Hs].
    cbn [append JS.split]. rewrite Ha, (IH Hs). reflexivity.
Qed.

(** X12. The constructor on a full repository name: the part before the
    first slash is the owner and the part up to the next slash is the
    repository, anything after a second slash being dropped; a name without
    a slash leaves the repository undefined. *)
Theorem new_GitHubClient_splits_the_full_name
    (getOctokit : string -> Octokit) (token owner repo : string) :
  has_char "/" owner = false ->
  has_char "/" repo = false ->
  new_GitHubClient getOctokit token [owner ++ "/" ++ repo]
    = mkGitHubClient (getOctokit token) (Some owner) (Some repo)
  /\ (forall rest,
        new_GitHubClient getOctokit token [owner ++ "/" ++ repo ++ "/" ++ rest]
          = mkGitHubClient (getOctokit token) (Some owner) (Some repo))
  /\ new_GitHubClient getOctokit token [owner]
     = mkGitHubClient (getOctokit token) (Some owner) None.
Proof.
  intros Ho Hr. unfold new_GitHubClient. repeat split.
  - change (owner ++ "/" ++ repo) with (owner ++ String "/" repo).
    now rewrite (split_at_sep _ _ _ Ho), (split_without_sep _ _ Hr).
  - intros rest.
    change (owner ++ "/" ++ repo ++ "/" ++ rest)
      with (owner ++ String "/" (repo ++ String "/" rest)).
    now rewrite (split_at_sep _ _ _ Ho), (split_at_sep _ _ _ Hr).
  - now rewrite (split_without_sep _ _ Ho).
Qed.

Lemma new_GitHubClient_splits_the_full_name_witness :
  new_GitHubClient (Sample.repository Sample.no_commits) "token"
    ["cdqag" ++ "/" ++ "action-semver"]
    = mkGitHubClient (Sample.repository Sample.no_commits "token")
        (Some "cdqag") (Some "action-semver").
Proof.
  exact (proj1 (new_GitHubClient_splits_the_full_name
                  (Sample.repository Sample.no_commits) "token"
                  "cdqag" "action-semver" eq_refl eq_refl)).
Defined.

(** ** utils.ts and index.ts *)

Section IndexRuns.

Context (getInput : string -> string).
Context (trim : string -> string).
Context (getOctokit : string -> Octokit).
Context {semver_lib : semver.Lib}.
Context (cc_parser : string -> option ConventionalCommit).
Context (context_sha : string).
Context (fuel : nat).

Local Notation "'input' name" := (trim (getInput name)) (at level 10).
Local Notation "'require' name" :=
  (requireNonEmptyStringInput getInput trim name) (at level 10).

Lemma require_present name :
  input name <> "" -> require name = ret (input name).
Proof.
  intros H. unfold requireNonEmptyStringInput, JS.strict_eq. cbn zeta.
  apply String.eqb_neq in H. now rewrite H.
Qed.

Lemma require_missing name :
  input name = "" ->
  require name =
    throw (mkError None ("Input '" ++ name ++ "' cannot be an empty string")).
Proof.
  intros H. unfold requireNonEmptyStringInput, JS.strict_eq. cbn zeta.
  now rewrite H.
Qed.

(** X22. The script reads its six inputs in a fixed order and stops at the
    first whose trimmed value is empty, with an error naming that input:
    [main] is not started and nothing is logged or set. *)
Theorem index_stops_at_first_empty_input (before : list string)
    (name : string) (after : list string) :
  index_inputs = (before ++ name :: after)%list ->
  (forall n, In n before -> input n <> "") ->
  input name = "" ->
  index getInput trim getOctokit cc_parser context_sha fuel =
    ([], Threw (mkError None
                  ("Input '" ++ name ++ "' cannot be an empty string"))).
Proof.
  unfold index_inputs, index. intros Heq Hb Hn.
  do 6 (destruct before as [| b before];
        [ injection Heq as <- _; now rewrite (require_missing _ Hn)
        | injection Heq as <- Heq;
          rewrite (require_present _ (Hb _ (or_introl eq_refl))), bind_ret;
          assert (Hb' : forall n, In n before -> input n <> "")
            by (intros n Hin; apply Hb; now right);
          clear Hb; rename Hb' into Hb ]).
  destruct before; discriminate.
Qed.

(** X23. When none of the six inputs is empty once trimmed, the script is
    the run of [main] on the trimmed values, in the order repository,
    token, target branch, policy, initial version and glue. *)
Theorem index_starts_main_with_trimmed_inputs :
  (forall n, In n index_inputs -> input n <> "") ->
  index getInput trim getOctokit cc_parser context_sha fuel =
    main getOctokit cc_parser context_sha fuel
      (input "repository") (input "github-token") (input "target-branch")
      (input "not-conventional-commits-reaction")
      (input "init-release-version") (input "pre-release-version-glue").
Proof.
  intros H. unfold index.
  rewrite !require_present, !bind_ret; [reflexivity | ..];
    apply H; unfold index_inputs; cbn; tauto.
Qed.

End IndexRuns.

Lemma index_stops_at_first_empty_input_witness :
  Sample.script Sample.inputs_without_branch =
    ([], Threw (mkError None
                  "Input 'target-branch' cannot be an empty string")).
Proof.
  apply (index_stops_at_first_empty_input
           (Sample.getInput_of Sample.inputs_without_branch) Sample.trim
           (Sample.repository Sample.no_commits) Sample.cc_parser
           Sample.context_sha 5
           ["repository"; "github-token"] "target-branch"
           ["not-conventional-commits-reaction"; "init-release-version";
            "pre-release-version-glue"]).
  - reflexivity.
  - intros n [<- | [<- | []]]; discriminate.
  - reflexivity.
Defined.

Lemma index_starts_main_with_trimmed_inputs_witness :
  Sample.script Sample.all_inputs =
    Sample.run Sample.no_commits "refs/heads/main" "warn".
Proof.
  apply (index_starts_main_with_trimmed_inputs
           (Sample.getInput_of Sample.all_inputs) Sample.trim
           (Sample.repository Sample.no_commits) Sample.cc_parser
           Sample.context_sha 5).
  intros n [<- | [<- | [<- | [<- | [<- | [<- | []]]]]]]; discriminate.
Defined.

(** ** main.ts: failures and the new version *)

(** X24. In every run of [main], once a failure other than the
    classifier's abort has been signalled, [new-version] is not set: each
    failure that [main] signals itself ends the run before the version is
    published. *)
Theorem main_own_failure_sets_no_new_version
    (getOctokit : string -> Octokit) {semver_lib : semver.Lib}
    (cc_parser : string -> option ConventionalCommit)
    (context_sha : string) (fuel : nat)
    (fullRepoName githubToken targetBranch notConventionalCommitsReaction
     initReleaseVersion preReleaseVersionGlue : string)
    (msg : string) :
  let evs :=
    events (main getOctokit cc_parser context_sha fuel fullRepoName
              githubToken targetBranch notConventionalCommitsReaction
              initReleaseVersion preReleaseVersionGlue) in
  In (SetFailed msg) evs ->
  String.prefix "Commit message not in conventional-commits format: '" msg
    = false ->
  only no_new_version evs.
Proof.
  intros evs Hf Hmsg. unfold only. rewrite Forall_forall. intros e He.
  destruct e as [| | | | name version |]; try reflexivity.
  cbn [no_new_version]. destruct (String.eqb_spec name "new-version") as [-> | _];
    [| reflexivity].
  pose proof (main_failure_with_new_version_is_abort getOctokit cc_parser
                context_sha fuel fullRepoName githubToken targetBranch
                notConventionalCommitsReaction initReleaseVersion
                preReleaseVersionGlue msg version Hf He) as H.
  congruence.
Qed.

Lemma main_own_failure_sets_no_new_version_witness :
  only no_new_version
    (events (Sample.run_on
               (Sample.server (Ok "invalid-tag") Sample.no_commits)
               "refs/heads/main" "warn" "1.0.0")).
Proof.
  apply (main_own_failure_sets_no_new_version
           (Sample.server (Ok "invalid-tag") Sample.no_commits)
           Sample.cc_parser Sample.context_sha 5 "owner/repo" "token"
           "refs/heads/main" "warn" "1.0.0" "-"
           "Latest release tag (invalid-tag) is not a valid semver version. Please ensure your latest release tag follows semver format.").
  - right. right. left. reflexivity.
  - reflexivity.
Defined.
